(** * Pocket classifier: a shallow embedding of [mltoolbox/pocket_classifier.py]

    The module defines two classes, [Pocket] and [PocketClassifier].  The
    classifier owns numpy arrays that are mutated in place and, after the
    first training pass, shared between [self.weights] and
    [self.pocket.best_weights]; the embedding therefore keeps an explicit
    store of arrays and lets the object fields hold locations.  Python
    exceptions are results of a small state-and-exception monad. *)

From Stdlib Require Import ZArith List Bool Floats QArith Qcanon Lia.
From stdpp Require Import gmap list sorting.

Set Warnings "-inexact-float".
Local Open Scope Z_scope.

(** ** Numbers

    The arrays hold [float64] values.  Everything the module does with them
    is: create zeros, add, multiply, convert the integer [update], and test
    [>= 0.0].  The model is generic in an interpretation of these five
    operations, so that results which do not depend on arithmetic laws hold
    for IEEE doubles as well as for exact arithmetic. *)

Class Arith := {
  num : Type;
  zero : num;                (* an entry of np.zeros(..) *)
  add : num -> num -> num;
  mul : num -> num -> num;
  of_int : Z -> num;         (* the integer update used as a float64 *)
  ge_zero : num -> bool;     (* x >= 0.0 *)
}.

(** What the weights of a new classifier need of arithmetic: the product of a
    value and zero adds nothing to a sum that is zero.  [real] singles out
    the values of which this holds. *)
Class ZeroSums (A : Arith) := {
  real : num -> Prop;
  sum_zero_product : forall x : num, real x -> add zero (mul x zero) = zero;
  sum_zero_zero : add zero zero = zero;
  zero_ge_zero : ge_zero zero = true;
}.

(** IEEE binary64, as numpy's float64. *)
Definition float_of_Z (z : Z) : float :=
  match z with
  | Z0 => 0%float
  | Zpos _ => PrimFloat.of_uint63 (Uint63.of_Z z)
  | Zneg p => PrimFloat.opp (PrimFloat.of_uint63 (Uint63.of_Z (Zpos p)))
  end.

Definition binary64 : Arith := {|
  num := float;
  zero := 0%float;
  add := PrimFloat.add;
  mul := PrimFloat.mul;
  of_int := float_of_Z;
  ge_zero := fun x => PrimFloat.leb 0%float x;
|}.

(** The doubles other than the infinities and NaN. *)
Definition finite (x : float) : Prop :=
  match Prim2SF x with
  | S754_zero _ | S754_finite _ _ _ => True
  | S754_infinity _ | S754_nan => False
  end.

(** Exact rational arithmetic. *)
Definition rational : Arith := {|
  num := Qc;
  zero := Q2Qc 0;
  add := Qcplus;
  mul := Qcmult;
  of_int := fun z => Q2Qc (inject_Z z);
  ge_zero := fun x => Qle_bool 0 (this x);
|}.

(** The zeros, +0 and -0; and two doubles that are equal or both a zero. *)
Definition is_zero (x : float) : Prop :=
  match Prim2SF x with
  | S754_zero _ => True
  | _ => False
  end.

Definition same_value (x y : float) : Prop := x = y \/ (is_zero x /\ is_zero y).

(** ** Inner products

    The module leaves the inner product to [np.inner].  How numpy rounds
    and in which order it sums is not fixed by the module: the routine may
    fuse a product and a sum into one rounding, and may compute the same row
    differently in different batches.  The model therefore takes the two uses
    of [np.inner] as operations of an interface: [inner a b] is the result
    for two one-dimensional arguments of the same length, and
    [inner_at rows b i] is entry [i] of the result for a list of rows, all of
    the length of [b]. *)

Class Inner (A : Arith) := {
  inner : list num -> list num -> num;
  inner_at : list (list num) -> list num -> nat -> num;
}.

(** The sum of the products, accumulated from the left. *)
Definition dot {A : Arith} (a b : list num) : num :=
  fold_left add (zip_with mul a b) zero.

(** The interpretation that rounds each product and each sum, from the left,
    and treats each row of a batch on its own. *)
#[global] Instance sequential (A : Arith) : Inner A | 100 := {|
  inner := dot;
  inner_at := fun rows b i => dot (default [] (rows !! i)) b;
|}.

(** ** Exceptions and the monad *)

Inductive exn := KeyError | ValueError | IndexError | TypeError.

Inductive result (A : Type) :=
| Ok (a : A)
| Raise (e : exn).
Arguments Ok {A} a.
Arguments Raise {A} e.

Definition loc := nat.

Section Model.
Context {A : Arith} {L : Type} `{Countable L}.

(** ** Objects *)

(** [class Pocket]: [best_weights] is a reference to an array. *)
Record Pocket := mkPocket {
  best_weights : loc;
  misclassify_count : Z;
}.

(** [class PocketClassifier]. *)
Record PocketClassifier := mkPocketClassifier {
  pocket : Pocket;
  weights : loc;
  misclassify_record : list Z;
  _label_map : gmap Z L;
  _reversed_label_map : gmap L Z;
}.

(** The arrays allocated so far, and the classifier object. *)
Record state := mkState {
  heap : gmap loc (list num);
  self : PocketClassifier;
}.

Definition M (R : Type) : Type := state -> state * result R.

Definition ret {R} (r : R) : M R := fun s => (s, Ok r).

Definition raise {R} (e : exn) : M R := fun s => (s, Raise e).

Definition bind {R S} (m : M R) (k : R -> M S) : M S :=
  fun s => match m s with
           | (s', Ok r) => k r s'
           | (s', Raise e) => (s', Raise e)
           end.

Definition lift {R} (r : result R) : M R := fun s => (s, r).

End Model.

Declare Scope py_scope.
Delimit Scope py_scope with py.
Notation "'let*' x ':=' m 'in' k" := (bind m (fun x => k))
  (at level 10, x name, m at level 100, k at level 200) : py_scope.
Notation "'do' m 'then' k" := (bind m (fun _ => k))
  (at level 10, m at level 100, k at level 200) : py_scope.
Local Open Scope py_scope.

Section Classifier.
Context {A : Arith} {I : Inner A} {L : Type} `{Countable L}.

Local Abbreviation M := (@M A L _ _).
Local Abbreviation state := (@state A L _ _).

(** *** Store access *)

(** The array a reference points to.  References are created by allocation
    only, so the lookup succeeds on every state the program can reach. *)
Definition deref (s : state) (l : loc) : list num :=
  default [] (heap s !! l).

Definition load (l : loc) : M (list num) := fun s => (s, Ok (deref s l)).

Definition store (l : loc) (v : list num) : M unit :=
  fun s => (mkState (<[l := v]> (heap s)) (self s), Ok tt).

Definition alloc (v : list num) (h : gmap loc (list num)) : gmap loc (list num) * loc :=
  let l := fresh (dom h) in (<[l := v]> h, l).

Definition get_self : M PocketClassifier := fun s => (s, Ok (self s)).

Definition set_pocket (p : Pocket) : M unit :=
  fun s => (mkState (heap s)
              (mkPocketClassifier p (weights (self s)) (misclassify_record (self s))
                 (_label_map (self s)) (_reversed_label_map (self s))), Ok tt).

Definition set_misclassify_record (r : list Z) : M unit :=
  fun s => (mkState (heap s)
              (mkPocketClassifier (pocket (self s)) (weights (self s)) r
                 (_label_map (self s)) (_reversed_label_map (self s))), Ok tt).

(** *** numpy *)

Definition np_zeros (n : nat) : list num := replicate n zero.

(** [np.inner] of two one-dimensional arguments: the last dimensions must
    agree. *)
Definition np_inner (a b : list num) : result num :=
  if decide (length a = length b) then Ok (inner a b) else Raise ValueError.

(** What [np.inner] returns: a scalar or a one-dimensional array. *)
Inductive ndarray :=
| Scalar (x : num)
| Vector (xs : list num).

(** [np.inner] of a list of rows and a one-dimensional array.  The empty list
    converts to an array of shape (0,), and is then a one-dimensional
    argument; rows of different lengths do not convert to an array. *)
Definition np_inner_rows (rows : list (list num)) (b : list num) : result ndarray :=
  match rows with
  | [] => if decide (length b = 0%nat) then Ok (Scalar (inner [] b)) else Raise ValueError
  | r :: _ =>
      if forallb (fun r' => Nat.eqb (length r') (length r)) rows
      then if decide (length r = length b)
           then Ok (Vector (map (inner_at rows b) (seq 0 (length rows))))
           else Raise ValueError
      else Raise ValueError
  end.

(** [np.where(x >= 0.0, 1, -1)] *)
Definition np_where (x : num) : Z := if ge_zero x then 1 else -1.

(** [d[k]] on a dict. *)
Definition getitem {K V} `{Countable K} (d : gmap K V) (k : K) : result V :=
  match d !! k with
  | Some v => Ok v
  | None => Raise KeyError
  end.

(** [[d[k] for k in ks]] *)
Fixpoint getitems {K V} `{Countable K} (d : gmap K V) (ks : list K) : result (list V) :=
  match ks with
  | [] => Ok []
  | k :: ks' =>
      match getitem d k with
      | Ok v => match getitems d ks' with
                | Ok vs => Ok (v :: vs)
                | Raise e => Raise e
                end
      | Raise e => Raise e
      end
  end.

(** *** [Pocket.__init__] and [PocketClassifier.__init__] *)

Definition Pocket_init (number_of_attributes : nat) (h : gmap loc (list num))
  : gmap loc (list num) * Pocket :=
  let '(h', l) := alloc (np_zeros (number_of_attributes + 1)) h in
  (h', mkPocket l (-1)).

(** The dict displays [{1: class_labels[0], -1: class_labels[1]}] and
    [{class_labels[0]: 1, class_labels[1]: -1}]; a later entry overrides an
    earlier one with an equal key. *)
Definition label_map_of (class_labels : L * L) : gmap Z L :=
  <[-1 := class_labels.2]> (<[1 := class_labels.1]> ∅).

Definition reversed_label_map_of (class_labels : L * L) : gmap L Z :=
  <[class_labels.2 := -1]> (<[class_labels.1 := 1]> ∅).

Definition init (number_of_attributes : nat) (class_labels : L * L) : state :=
  let '(h1, p) := Pocket_init number_of_attributes ∅ in
  let '(h2, w) := alloc (np_zeros (number_of_attributes + 1)) h1 in
  mkState h2
    (mkPocketClassifier p w []
       (label_map_of class_labels) (reversed_label_map_of class_labels)).

(** *** [_linear_combination] *)

(** On one sample. *)
Definition _linear_combination (sample : list num) : M num :=
  let* o := get_self in
  let* w := load (weights o) in
  lift (np_inner sample (drop 1 w)).

(** On a list of samples, as [classify] calls it. *)
Definition _linear_combination_rows (new_data : list (list num)) : M ndarray :=
  let* o := get_self in
  let* w := load (weights o) in
  lift (np_inner_rows new_data (drop 1 w)).

(** *** [train] *)

(** [self.weights[1:] += v] *)
Definition iadd_weights_tail (v : list num) : M unit :=
  let* o := get_self in
  let* w := load (weights o) in
  if decide (length (drop 1 w) = length v)
  then store (weights o) (take 1 w ++ zip_with add (drop 1 w) v)
  else raise ValueError.

(** [self.weights[0] += x] *)
Definition iadd_weights_head (x : num) : M unit :=
  let* o := get_self in
  let* w := load (weights o) in
  match w with
  | [] => raise IndexError
  | w0 :: ws => store (weights o) (add w0 x :: ws)
  end.

(** The body of the loop over the samples; the result is
    [int(update != 0.0)]. *)
Definition train_sample (sample : list num) (target : Z) : M Z :=
  let* linear_combination := _linear_combination sample in
  let update := target - np_where linear_combination in
  do iadd_weights_tail (map (mul (of_int update)) sample) then
  do iadd_weights_head (of_int update) then
  ret (if update =? 0 then 0 else 1).

(** [for sample, target in zip(samples, transferred_labels)], with the
    counter [misclassifies]. *)
Fixpoint train_samples (pairs : list (list num * Z)) (misclassifies : Z) : M Z :=
  match pairs with
  | [] => ret misclassifies
  | (sample, target) :: rest =>
      let* r := train_sample sample target in
      train_samples rest (misclassifies + r)
  end.

(** Lines 134-144: one pass over the samples. *)
Definition train_pass (samples : list (list num)) (transferred_labels : list Z) : M Z :=
  train_samples (zip samples transferred_labels) 0.

(** Lines 148-155: the comparison with the pocket.  The assignment of
    [best_weights] stores the reference held by [self.weights]. *)
Definition update_pocket (misclassifies : Z) : M unit :=
  let* o := get_self in
  if (misclassify_count (pocket o) =? -1)
     || (misclassify_count (pocket o) >? misclassifies)
     || (misclassifies =? 0)
  then set_pocket (mkPocket (weights o) misclassifies)
  else ret tt.

(** [self.misclassify_record.append(self.pocket.misclassify_count)] *)
Definition append_record : M unit :=
  let* o := get_self in
  set_misclassify_record (misclassify_record o ++ [misclassify_count (pocket o)]).

(** The body of [for _ in range(max_iterator)]; [true] stands for [break]. *)
Definition train_iteration (samples : list (list num)) (transferred_labels : list Z) : M bool :=
  let* misclassifies := train_pass samples transferred_labels in
  do update_pocket misclassifies then
  if misclassifies =? 0 then ret true
  else do append_record then ret false.

Fixpoint for_range (n : nat) (body : M bool) : M unit :=
  match n with
  | O => ret tt
  | S n' => let* stop := body in if stop then ret tt else for_range n' body
  end.

Definition train (samples : list (list num)) (labels : list L) (max_iterator : Z) : M unit :=
  let* o := get_self in
  let* transferred_labels := lift (getitems (_reversed_label_map o) labels) in
  for_range (Z.to_nat max_iterator) (train_iteration samples transferred_labels).

(** *** [classify] *)

Definition classify (new_data : list (list num)) : M (list L) :=
  let* lc := _linear_combination_rows new_data in
  let* o := get_self in
  let* w := load (weights o) in
  match w with
  | [] => raise IndexError
  | w0 :: _ =>
      match lc with
      | Scalar _ => raise TypeError      (* a 0-d array is not iterable *)
      | Vector xs =>
          let predicted_result := map (fun x => np_where (add x w0)) xs in
          lift (getitems (_label_map o) predicted_result)
      end
  end.

(** ** Observing a run

    [train] returns nothing, and the counter [misclassifies] is local to a
    pass.  To state what happens pass by pass, the completed passes of a call
    are listed with the same recursion as [for_range], calling the same
    [train_pass], [update_pocket] and [append_record]. *)

Record pass_event := mkEvent {
  ev_misclassifies : Z;      (* the pass's counter *)
  ev_trained : state;        (* the state when the pass's samples are done *)
  ev_compared : state;       (* the state just after the pocket comparison *)
}.

(** Whether the pocket comparison of the pass assigned the pocket. *)
Definition ev_replaced (e : pass_event) : bool :=
  let p := pocket (self (ev_trained e)) in
  (misclassify_count p =? -1)
  || (misclassify_count p >? ev_misclassifies e)
  || (ev_misclassifies e =? 0).

(** The pocket's count and the array its [best_weights] refers to, as they
    stand just after the pass's pocket comparison. *)
Definition ev_pocket_count (e : pass_event) : Z :=
  misclassify_count (pocket (self (ev_compared e))).

Definition ev_best_weights (e : pass_event) : list num :=
  deref (ev_compared e) (best_weights (pocket (self (ev_compared e)))).

Definition ev_weights (e : pass_event) : list num :=
  deref (ev_compared e) (weights (self (ev_compared e))).

Fixpoint train_passes (n : nat) (samples : list (list num)) (transferred_labels : list Z)
    (s : state) : list pass_event :=
  match n with
  | O => []
  | S n' =>
      match train_pass samples transferred_labels s with
      | (s1, Ok m) =>
          let s2 := (update_pocket m s1).1 in
          mkEvent m s1 s2 ::
            (if m =? 0 then []
             else train_passes n' samples transferred_labels (append_record s2).1)
      | (_, Raise _) => []
      end
  end.

(** The completed passes of one call of [train]. *)
Definition train_events (samples : list (list num)) (labels : list L) (max_iterator : Z)
    (s : state) : list pass_event :=
  match getitems (_reversed_label_map (self s)) labels with
  | Ok transferred_labels =>
      train_passes (Z.to_nat max_iterator) samples transferred_labels s
  | Raise _ => []
  end.

(** A sequence of calls of [train] on one classifier; a caller may go on
    after a call that raised. *)
Record call := mkCall {
  call_samples : list (list num);
  call_labels : list L;
  call_max_iterator : Z;
}.

Fixpoint session (calls : list call) (s : state) : state :=
  match calls with
  | [] => s
  | c :: rest =>
      session rest (train (call_samples c) (call_labels c) (call_max_iterator c) s).1
  end.

Fixpoint session_events (calls : list call) (s : state) : list pass_event :=
  match calls with
  | [] => []
  | c :: rest =>
      train_events (call_samples c) (call_labels c) (call_max_iterator c) s
      ++ session_events rest
           (train (call_samples c) (call_labels c) (call_max_iterator c) s).1
  end.

(** The least element of a list of counts. *)
Definition minimum (l : list Z) : option Z :=
  match l with
  | [] => None
  | x :: l' => Some (fold_left Z.min l' x)
  end.

(** The pocket's count is the least of the counts [seen], or the sentinel
    when no pass has completed. *)
Definition tracked (seen : list Z) (s : state) : Prop :=
  misclassify_count (pocket (self s)) = from_option id (-1) (minimum seen)
  ∧ Forall (fun y => 0 ≤ y) seen.

(** The pocket is unset, or its [best_weights] is the array of
    [self.weights]. *)
Definition shared (s : state) : Prop :=
  misclassify_count (pocket (self s)) = -1
  ∨ best_weights (pocket (self s)) = weights (self s).

(** The pocket's count after each pass is the least count of the passes so
    far, [seen] being the counts of the passes before the listed ones. *)
Fixpoint pocket_tracks (seen : list Z) (es : list pass_event) : Prop :=
  match es with
  | [] => True
  | e :: es' =>
      0 ≤ ev_misclassifies e
      ∧ Some (ev_pocket_count e) = minimum (seen ++ [ev_misclassifies e])
      ∧ pocket_tracks (seen ++ [ev_misclassifies e]) es'
  end.

(** The entries a call appends to the record: the pocket's count after the
    comparison of each pass that did not reach zero. *)
Definition appended_entries (es : list pass_event) : list Z :=
  map ev_pocket_count (filter (fun e => ev_misclassifies e ≠ 0) es).

(** The pocket is [p] when the first listed pass ends, and between the
    comparison of a pass and the end of the next pass it is not assigned. *)
Fixpoint pocket_held (p : Pocket) (es : list pass_event) : Prop :=
  match es with
  | [] => True
  | e :: es' =>
      pocket (self (ev_trained e)) = p
      ∧ pocket_held (pocket (self (ev_compared e))) es'
  end.

(** Two states that differ at most in the entry 0 of the array of
    [self.weights]. *)
Definition same_but_bias (s1 s2 : state) : Prop :=
  self s1 = self s2
  ∧ (∀ l, l ≠ weights (self s1) → heap s1 !! l = heap s2 !! l)
  ∧ length (deref s1 (weights (self s1))) = length (deref s2 (weights (self s2)))
  ∧ drop 1 (deref s1 (weights (self s1))) = drop 1 (deref s2 (weights (self s2))).

(** What a pass without misclassification needs of arithmetic.  [regular]
    singles out the attributes, and [same] the weights that count as
    unchanged: adding zero times a regular attribute to a weight, or zero to
    the entry 0, gives the same weight, and the test [>= 0.0] on the inner
    product of a sample and the weights does not tell the same weights
    apart. *)
Definition zero_update_laws (regular : num → Prop) (same : num → num → Prop) : Prop :=
  (∀ x, same x x)
  ∧ (∀ x y z, same x y → same y z → same x z)
  ∧ (∀ w x, regular x → same (add w (mul (of_int 0) x)) w)
  ∧ (∀ w, same (add w (of_int 0)) w)
  ∧ (∀ x w w', Forall2 same w w' → ge_zero (inner x w) = ge_zero (inner x w')).

(** The weights after lines 140-141 when [update] is 0. *)
Definition zero_update (sample w : list num) : list num :=
  match w with
  | [] => []
  | w0 :: ws => add w0 (of_int 0) :: zip_with add ws (map (mul (of_int 0)) sample)
  end.

(** What a further pass without misclassification needs: the values that
    such a pass adds to a weight, zero and zero times a regular attribute,
    change nothing when they are added once more, and can be added in any
    order. *)
Definition zero_updates_absorbed (regular : num → Prop) : Prop :=
  let null z := z = of_int 0 ∨ ∃ x, regular x ∧ z = mul (of_int 0) x in
  (∀ w z, null z → add (add w z) z = add w z)
  ∧ (∀ w z z', null z → null z' → add (add w z) z' = add (add w z') z).

(** Whether the last completed pass reached zero misclassifications. *)
Definition final_zero (es : list pass_event) : bool :=
  match last es with
  | Some e => ev_misclassifies e =? 0
  | None => false
  end.

(** A data set is separable by a linear boundary when some bias [b] and
    weights [w] put every sample on the side of its label's code. *)
Definition separates (b : num) (w : list num) (samples : list (list num)) (codes : list Z) : Prop :=
  Forall (fun p => length p.1 = length w /\ np_where (add (dot p.1 w) b) = p.2)
    (zip samples codes).

End Classifier.

(** ** Concrete data *)

(** The example of the class docstring, with [float64] attributes. *)
Module Docstring.

Definition samples : list (list float) :=
  [[5.1; 3.5; 1.4; 0.2]; [4.9; 3.0; 1.4; 0.2]; [4.7; 3.2; 1.3; 0.2];
   [4.6; 3.1; 1.5; 0.2]; [5.0; 3.6; 1.4; 0.2]; [5.4; 3.9; 1.7; 0.4];
   [7.0; 3.2; 4.7; 1.4]; [6.4; 3.2; 4.5; 1.5]; [6.9; 3.1; 4.9; 1.5];
   [5.5; 2.3; 4.0; 1.3]; [6.5; 2.8; 4.6; 1.5]; [5.7; 2.8; 4.5; 1.3]]%float.

Definition labels : list Z := [-1; -1; -1; -1; -1; -1; 1; 1; 1; 1; 1; 1].

Definition new_data : list (list float) :=
  [[6.3; 3.3; 4.7; 1.6]; [4.6; 3.4; 1.4; 0.3]]%float.

(** [PocketClassifier(4, (-1, 1))] *)
Definition classifier : @state binary64 Z _ _ := init 4 (-1, 1).

(** The same data read as exact decimal fractions, in tenths. *)
Definition tenths (n : Z) : Qc := Q2Qc (n # 10).

Definition samples_exact : list (list Qc) :=
  map (map tenths)
    [[51; 35; 14; 2]; [49; 30; 14; 2]; [47; 32; 13; 2];
     [46; 31; 15; 2]; [50; 36; 14; 2]; [54; 39; 17; 4];
     [70; 32; 47; 14]; [64; 32; 45; 15]; [69; 31; 49; 15];
     [55; 23; 40; 13]; [65; 28; 46; 15]; [57; 28; 45; 13]].

Definition new_data_exact : list (list Qc) :=
  map (map tenths) [[63; 33; 47; 16]; [46; 34; 14; 3]].

Definition classifier_exact : @state rational Z _ _ := init 4 (-1, 1).

End Docstring.

(** Small data sets with integer attributes, on which [float64] arithmetic
    is exact.  The class labels are [(-1, 1)] as in the docstring, so the
    label [-1] has the code [+1] and the label [1] has the code [-1]. *)
Module Samples.

(** One attribute; the two samples need a boundary between 1 and 2. *)
Definition line : list (list float) := [[1]; [2]]%float.
Definition line_labels : list Z := [-1; 1].

(** Two attributes; the boundary [-x2 >= 0] through the origin separates the
    two samples. *)
Definition narrow : list (list float) := [[10; 1]; [11; -1]]%float.
Definition narrow_labels : list Z := [1; -1].
Definition narrow_codes : list Z := [-1; 1].

(** Three attributes; the boundary [-x1 - x2 >= 0] through the origin
    separates the three samples. *)
Definition corner : list (list float) := [[1; 0; 0]; [0; 1; 0]; [-1; 0; 0]]%float.
Definition corner_labels : list Z := [1; 1; -1].
Definition corner_codes : list Z := [-1; -1; 1].

Definition classifier (d : nat) : @state binary64 Z _ _ := init d (-1, 1).

(** The last completed pass of [train(corner, corner_labels, 10)] on a new
    classifier, in binary64. *)
Definition corner_final : @pass_event binary64 Z _ _ :=
  default (mkEvent 0 (classifier 3) (classifier 3))
    (last (train_events (A := binary64) corner corner_labels 10 (classifier 3))).

Definition corner_exact : list (list Qc) :=
  map (map (fun z => Q2Qc (inject_Z z))) [[1; 0; 0]; [0; 1; 0]; [-1; 0; 0]].

Definition classifier_exact (d : nat) : @state rational Z _ _ := init d (-1, 1).

(** The last completed pass of [train(corner, corner_labels, 10)]. *)
Definition corner_last : @pass_event rational Z _ _ :=
  default (mkEvent 0 (classifier_exact 3) (classifier_exact 3))
    (last (train_events (A := rational) corner_exact corner_labels 10
             (classifier_exact 3))).

End Samples.


(** ** Frame properties of the operations *)

Ltac unfold_monad :=
  unfold bind, ret, raise, lift, get_self, load, store, set_pocket,
    set_misclassify_record in *.

Section Frames.
Context {A : Arith} {I : Inner A} {L : Type} `{Countable L}.

Local Abbreviation state := (@state A L _ _).
Local Abbreviation pass_event := (@pass_event A L _ _).

Implicit Types (s : state) (e : pass_event) (m : Z).

Lemma deref_insert (h : gmap loc (list num)) (o : @PocketClassifier L _ _) l
    (v : list num) :
  deref (mkState (<[l := v]> h) o) l = v.
Proof. unfold deref. cbn [heap]. by rewrite lookup_insert_eq. Qed.

(** Training on a sample writes to the array of [self.weights] and to
    nothing else: no field of the objects changes, whatever the outcome. *)
Lemma train_sample_self sample target s :
  self (train_sample sample target s).1 = self s.
Proof.
  unfold train_sample, _linear_combination, iadd_weights_tail, iadd_weights_head.
  unfold_monad. simpl.
  destruct (np_inner sample _) as [lc|err]; simpl; [|done].
  case_decide; simpl; [|done].
  unfold deref; simpl. rewrite lookup_insert_eq. simpl.
  destruct (take 1 _ ++ _); done.
Qed.

Lemma train_sample_heap sample target s l :
  l ≠ weights (self s) →
  heap (train_sample sample target s).1 !! l = heap s !! l.
Proof.
  intros Hl.
  unfold train_sample, _linear_combination, iadd_weights_tail, iadd_weights_head.
  unfold_monad. simpl.
  destruct (np_inner sample _) as [lc|err]; simpl; [|done].
  case_decide; simpl; [|done].
  unfold deref; simpl. rewrite lookup_insert_eq. simpl.
  destruct (take 1 _ ++ _); simpl.
  - by rewrite lookup_insert_ne.
  - by rewrite !lookup_insert_ne.
Qed.

Lemma train_sample_result sample target s s' r :
  train_sample sample target s = (s', Ok r) → r = 0 ∨ r = 1.
Proof.
  unfold train_sample, _linear_combination, iadd_weights_tail, iadd_weights_head.
  unfold_monad. simpl.
  destruct (np_inner sample _) as [lc|err]; simpl; [|done].
  case_decide; simpl; [|done].
  unfold deref; simpl. rewrite lookup_insert_eq. simpl.
  destruct (take 1 _ ++ _); simpl; [done|].
  intros [= _ <-]. destruct (_ =? 0); auto.
Qed.

Lemma train_samples_self pairs m s :
  self (train_samples pairs m s).1 = self s.
Proof.
  revert m s. induction pairs as [|[sample target] rest IH]; intros m s; [done|].
  simpl. unfold bind.
  pose proof (train_sample_self sample target s) as Hs.
  destruct (train_sample sample target s) as [s1 [r|err]]; simpl in *; [|done].
  by rewrite IH.
Qed.

Lemma train_samples_heap pairs m s l :
  l ≠ weights (self s) →
  heap (train_samples pairs m s).1 !! l = heap s !! l.
Proof.
  revert m s. induction pairs as [|[sample target] rest IH]; intros m s Hl; [done|].
  simpl. unfold bind.
  pose proof (train_sample_self sample target s) as Hs.
  pose proof (train_sample_heap sample target s l Hl) as Hh.
  destruct (train_sample sample target s) as [s1 [r|err]]; simpl in *; [|done].
  rewrite IH; [done|]. by rewrite Hs.
Qed.

Lemma train_samples_bounds pairs m s s' m' :
  train_samples pairs m s = (s', Ok m') → m ≤ m' ≤ m + Z.of_nat (length pairs).
Proof.
  revert m s. induction pairs as [|[sample target] rest IH]; intros m s; simpl.
  - unfold ret. intros [= _ <-]. lia.
  - unfold bind.
    destruct (train_sample sample target s) as [s1 [r|err]] eqn:E; [|done].
    intros Hrest. apply IH in Hrest.
    apply train_sample_result in E. lia.
Qed.

Lemma train_pass_self samples codes s :
  self (train_pass samples codes s).1 = self s.
Proof. apply train_samples_self. Qed.

Lemma train_pass_nonneg samples codes s s' m :
  train_pass samples codes s = (s', Ok m) → 0 ≤ m.
Proof. intros Hp. apply train_samples_bounds in Hp. lia. Qed.

(** The pocket comparison and the append to the record never raise. *)
Lemma update_pocket_ok m s : update_pocket m s = ((update_pocket m s).1, Ok tt).
Proof. unfold update_pocket. unfold_monad. by destruct (_ || _). Qed.

Lemma append_record_ok s : append_record s = ((append_record s).1, Ok tt).
Proof. done. Qed.

Lemma update_pocket_heap m s : heap (update_pocket m s).1 = heap s.
Proof. unfold update_pocket. unfold_monad. by destruct (_ || _). Qed.

Lemma update_pocket_fields m s :
  weights (self (update_pocket m s).1) = weights (self s)
  ∧ misclassify_record (self (update_pocket m s).1) = misclassify_record (self s)
  ∧ _label_map (self (update_pocket m s).1) = _label_map (self s)
  ∧ _reversed_label_map (self (update_pocket m s).1) = _reversed_label_map (self s).
Proof. unfold update_pocket. unfold_monad. by destruct (_ || _). Qed.

Lemma update_pocket_pocket m s :
  pocket (self (update_pocket m s).1) =
    if (misclassify_count (pocket (self s)) =? -1)
       || (misclassify_count (pocket (self s)) >? m) || (m =? 0)
    then mkPocket (weights (self s)) m
    else pocket (self s).
Proof. unfold update_pocket. unfold_monad. by destruct (_ || _). Qed.

Lemma append_record_fields s :
  heap (append_record s).1 = heap s
  ∧ pocket (self (append_record s).1) = pocket (self s)
  ∧ weights (self (append_record s).1) = weights (self s)
  ∧ _label_map (self (append_record s).1) = _label_map (self s)
  ∧ _reversed_label_map (self (append_record s).1) = _reversed_label_map (self s)
  ∧ misclassify_record (self (append_record s).1) =
      misclassify_record (self s) ++ [misclassify_count (pocket (self s))].
Proof. done. Qed.

(** One iteration of the loop of [train], by cases on its pass. *)
Lemma train_iteration_unfold samples codes s :
  train_iteration samples codes s =
    match train_pass samples codes s with
    | (s1, Ok m) =>
        if m =? 0 then ((update_pocket m s1).1, Ok true)
        else ((append_record (update_pocket m s1).1).1, Ok false)
    | (s1, Raise err) => (s1, Raise err)
    end.
Proof.
  unfold train_iteration, bind.
  destruct (train_pass samples codes s) as [s1 [m|err]]; [|done].
  rewrite update_pocket_ok. by destruct (m =? 0).
Qed.

End Frames.

(** ** The loop of [train] and its completed passes *)

Section Loop.
Context {A : Arith} {I : Inner A} {L : Type} `{Countable L}.

Local Abbreviation state := (@state A L _ _).
Local Abbreviation pass_event := (@pass_event A L _ _).

Implicit Types (s : state) (e : pass_event) (m : Z) (es : list pass_event).

Lemma lookup_cons_succ {X} (x : X) (l : list X) (k : nat) : (x :: l) !! S k = l !! k.
Proof. done. Qed.

Lemma for_range_step n samples codes s :
  for_range (S n) (train_iteration samples codes) s =
    match train_pass samples codes s with
    | (s1, Ok m) =>
        if m =? 0 then ((update_pocket m s1).1, Ok tt)
        else for_range n (train_iteration samples codes)
               (append_record (update_pocket m s1).1).1
    | (s1, Raise err) => (s1, Raise err)
    end.
Proof.
  simpl. unfold bind at 1. rewrite train_iteration_unfold.
  destruct (train_pass samples codes s) as [s1 [m|err]]; [|done].
  by destruct (m =? 0).
Qed.

(** Splits a goal about [for_range (S n)] and [train_passes (S n)] along the
    outcome of the first pass. *)
Ltac first_pass samples codes s :=
  rewrite ?for_range_step; cbn [train_passes];
  let Hp := fresh "Hpass" in
  let Hm := fresh "Hm" in
  pose proof (train_pass_self samples codes s) as Hp;
  destruct (train_pass samples codes s) as [?s [?m|?err]] eqn:?Epass;
  [destruct (Z.eqb_spec m 0) as [Hm|Hm]|]; cbn [fst snd] in *.

Lemma train_passes_length n samples codes s :
  (length (train_passes n samples codes s) ≤ n)%nat.
Proof.
  revert s. induction n as [|n IH]; intros s; [done|].
  first_pass samples codes s; cbn [length]; try lia.
  specialize (IH (append_record (update_pocket m s0).1).1). lia.
Qed.

(** A pass without misclassification is the last one of its call. *)
Lemma train_passes_zero_last n samples codes s k e :
  train_passes n samples codes s !! k = Some e →
  ev_misclassifies e = 0 →
  length (train_passes n samples codes s) = S k.
Proof.
  revert s k. induction n as [|n IH]; intros s k; [done|].
  first_pass samples codes s; [| |done].
  - destruct k as [|k]; [done|]. rewrite lookup_cons_succ. by rewrite lookup_nil.
  - destruct k as [|k].
    + intros [= <-]. cbn [ev_misclassifies]. lia.
    + rewrite lookup_cons_succ. cbn [length]. intros Hk He. f_equal. by eapply IH.
Qed.

Lemma for_range_fields n samples codes s :
  let s' := (for_range n (train_iteration samples codes) s).1 in
  weights (self s') = weights (self s)
  ∧ _label_map (self s') = _label_map (self s)
  ∧ _reversed_label_map (self s') = _reversed_label_map (self s).
Proof.
  revert s. induction n as [|n IH]; intros s; [done|]. cbn zeta.
  first_pass samples codes s.
  - destruct (update_pocket_fields m s0) as (-> & _ & -> & ->). by rewrite Hpass.
  - destruct (IH (append_record (update_pocket m s0).1).1) as (-> & -> & ->).
    destruct (append_record_fields (update_pocket m s0).1) as (_ & _ & -> & -> & -> & _).
    destruct (update_pocket_fields m s0) as (-> & _ & -> & ->).
    by rewrite Hpass.
  - by rewrite Hpass.
Qed.

(** The pocket after a call is the one left by the last completed pass. *)
Lemma for_range_pocket n samples codes s :
  pocket (self (for_range n (train_iteration samples codes) s).1) =
    from_option (fun e => pocket (self (ev_compared e))) (pocket (self s))
      (last (train_passes n samples codes s)).
Proof.
  revert s. induction n as [|n IH]; intros s; [done|].
  first_pass samples codes s; [done| |by rewrite Hpass].
  rewrite IH.
  destruct (train_passes n samples codes _) as [|e es] eqn:E; [done|].
  rewrite last_cons_cons, (last_cons e es). by destruct (last es).
Qed.

(** The record after a call. *)
Lemma for_range_record n samples codes s :
  misclassify_record (self (for_range n (train_iteration samples codes) s).1) =
    misclassify_record (self s) ++ appended_entries (train_passes n samples codes s).
Proof.
  unfold appended_entries.
  revert s. induction n as [|n IH]; intros s; [by rewrite app_nil_r|].
  first_pass samples codes s.
  - rewrite filter_cons_False; [|cbn [ev_misclassifies]; tauto].
    rewrite filter_nil. cbn [map]. rewrite app_nil_r.
    destruct (update_pocket_fields m s0) as (_ & -> & _). by rewrite Hpass.
  - rewrite IH. rewrite filter_cons_True; [|done]. cbn [map].
    destruct (append_record_fields (update_pocket m s0).1) as (_ & _ & _ & _ & _ & ->).
    destruct (update_pocket_fields m s0) as (_ & -> & _). rewrite Hpass.
    by rewrite <- app_assoc.
  - cbn [filter map]. by rewrite app_nil_r, Hpass.
Qed.

(** A call whose last completed pass reached zero stopped there, normally. *)
Lemma for_range_stops n samples codes s e :
  last (train_passes n samples codes s) = Some e →
  ev_misclassifies e = 0 →
  for_range n (train_iteration samples codes) s = (ev_compared e, Ok tt).
Proof.
  revert s. induction n as [|n IH]; intros s; [done|].
  first_pass samples codes s; [| |done].
  - by intros [= <-].
  - destruct (train_passes n samples codes _) as [|e' es] eqn:E.
    + cbn [last]. by intros [= <-].
    + rewrite last_cons_cons. rewrite <- E. apply IH.
Qed.

End Loop.

(** ** Calls of [train] and sequences of calls *)

Section Calls.
Context {A : Arith} {I : Inner A} {L : Type} `{Countable L}.

Local Abbreviation state := (@state A L _ _).
Local Abbreviation pass_event := (@pass_event A L _ _).
Local Abbreviation call := (@call A L).

Implicit Types (s : state) (e : pass_event) (m : Z) (es : list pass_event)
  (seen : list Z).

Lemma train_unfold samples labels max_iterator s :
  train samples labels max_iterator s =
    match getitems (_reversed_label_map (self s)) labels with
    | Ok codes => for_range (Z.to_nat max_iterator) (train_iteration samples codes) s
    | Raise err => (s, Raise err)
    end.
Proof.
  unfold train. unfold_monad.
  by destruct (getitems (_reversed_label_map (self s)) labels).
Qed.

Lemma train_fields samples labels max_iterator s :
  let s' := (train samples labels max_iterator s).1 in
  weights (self s') = weights (self s)
  ∧ _label_map (self s') = _label_map (self s)
  ∧ _reversed_label_map (self s') = _reversed_label_map (self s).
Proof.
  cbn zeta. rewrite train_unfold.
  destruct (getitems _ labels); [apply for_range_fields|done].
Qed.

Lemma train_pocket samples labels max_iterator s :
  pocket (self (train samples labels max_iterator s).1) =
    from_option (fun e => pocket (self (ev_compared e))) (pocket (self s))
      (last (train_events samples labels max_iterator s)).
Proof.
  rewrite train_unfold. unfold train_events.
  destruct (getitems _ labels); [apply for_range_pocket|done].
Qed.

(** *** The least count *)

Lemma minimum_snoc seen m :
  minimum (seen ++ [m]) = Some (from_option (fun x => Z.min x m) m (minimum seen)).
Proof.
  destruct seen as [|x l]; [done|].
  cbn [app minimum from_option]. by rewrite fold_left_app.
Qed.

Lemma fold_min_nonneg (l : list Z) (x : Z) :
  0 ≤ x → Forall (fun y => 0 ≤ y) l → 0 ≤ fold_left Z.min l x.
Proof.
  revert x. induction l as [|y l IH]; intros x Hx Hl; [done|].
  inversion_clear Hl. cbn [fold_left]. apply IH; [lia|done].
Qed.

Lemma minimum_nonneg seen x :
  Forall (fun y => 0 ≤ y) seen → minimum seen = Some x → 0 ≤ x.
Proof.
  destruct seen as [|y l]; [done|].
  intros Hl [= <-]. inversion_clear Hl. by apply fold_min_nonneg.
Qed.

Lemma update_pocket_tracked seen m s :
  tracked seen s → 0 ≤ m →
  Some (misclassify_count (pocket (self (update_pocket m s).1)))
    = minimum (seen ++ [m]).
Proof.
  intros [Hc Hseen] Hm. rewrite minimum_snoc, update_pocket_pocket. f_equal.
  destruct (minimum seen) as [x|] eqn:E; cbn [from_option id] in *.
  - apply (minimum_nonneg _ _ Hseen) in E. rewrite Hc.
    destruct (Z.eqb_spec x (-1)); [lia|].
    destruct (Z.gtb_spec x m), (Z.eqb_spec m 0);
      cbn [orb misclassify_count]; lia.
  - rewrite Hc. by rewrite Z.eqb_refl.
Qed.

Lemma tracked_snoc seen m s s' :
  tracked seen s → 0 ≤ m →
  Some (misclassify_count (pocket (self s'))) = minimum (seen ++ [m]) →
  tracked (seen ++ [m]) s'.
Proof.
  intros [_ Hseen] Hm Hs'. split.
  - by rewrite <- Hs'.
  - apply Forall_app. split; [done|]. by constructor.
Qed.

Lemma train_passes_tracks n samples codes s seen :
  tracked seen s → pocket_tracks seen (train_passes n samples codes s).
Proof.
  revert s seen. induction n as [|n IH]; intros s seen Hs; [done|].
  cbn [train_passes].
  pose proof (train_pass_self samples codes s) as Hself.
  destruct (train_pass samples codes s) as [s1 [m|err]] eqn:Epass; [|done].
  cbn [fst] in Hself.
  assert (0 ≤ m) as Hm by (by eapply train_pass_nonneg).
  assert (tracked seen s1) as Hs1 by (unfold tracked; by rewrite Hself).
  pose proof (update_pocket_tracked seen m s1 Hs1 Hm) as Hmin.
  cbn [pocket_tracks ev_misclassifies]. split; [done|]. split; [done|].
  destruct (m =? 0); [done|].
  apply IH. by eapply tracked_snoc.
Qed.

Lemma pocket_tracks_app seen es1 es2 :
  pocket_tracks seen (es1 ++ es2) ↔
  pocket_tracks seen es1 ∧ pocket_tracks (seen ++ map ev_misclassifies es1) es2.
Proof.
  revert seen. induction es1 as [|e es1 IH]; intros seen.
  - cbn [app map pocket_tracks]. rewrite app_nil_r. tauto.
  - cbn [app map pocket_tracks]. rewrite IH, <- app_assoc. cbn [app]. tauto.
Qed.

Lemma pocket_tracks_last seen es e :
  pocket_tracks seen es → last es = Some e →
  Some (ev_pocket_count e) = minimum (seen ++ map ev_misclassifies es).
Proof.
  intros Hes [es' ->]%last_Some.
  apply pocket_tracks_app in Hes as [_ Hes].
  cbn [pocket_tracks] in Hes. destruct Hes as (_ & -> & _).
  by rewrite map_app, app_assoc.
Qed.

Lemma pocket_tracks_lookup seen es k e :
  pocket_tracks seen es → es !! k = Some e →
  Some (ev_pocket_count e) = minimum (seen ++ map ev_misclassifies (take (S k) es)).
Proof.
  intros Hes Hk.
  rewrite <- (take_drop (S k) es) in Hes.
  apply pocket_tracks_app in Hes as [Hes _].
  apply (pocket_tracks_last _ _ e) in Hes; [done|].
  rewrite (take_S_r _ _ _ Hk). apply last_snoc.
Qed.

Lemma pocket_tracks_nonneg seen es :
  pocket_tracks seen es → Forall (fun y => 0 ≤ y) (map ev_misclassifies es).
Proof.
  revert seen. induction es as [|e es IH]; intros seen; [by constructor|].
  cbn [pocket_tracks map]. intros (Hm & _ & Hes). constructor; [done|]. by eapply IH.
Qed.

Lemma tracked_after seen es s s' :
  tracked seen s → pocket_tracks seen es →
  pocket (self s') =
    from_option (fun e => pocket (self (ev_compared e))) (pocket (self s)) (last es) →
  tracked (seen ++ map ev_misclassifies es) s'.
Proof.
  intros [Hc Hseen] Hes Hp. split.
  - rewrite Hp. destruct (last es) as [e|] eqn:E; cbn [from_option].
    + pose proof (pocket_tracks_last _ _ _ Hes E) as Hl.
      unfold ev_pocket_count in Hl. by rewrite <- Hl.
    + apply last_None in E as ->. cbn [map]. by rewrite app_nil_r.
  - apply Forall_app. split; [done|]. by eapply pocket_tracks_nonneg.
Qed.

Lemma train_events_tracks samples labels max_iterator s seen :
  tracked seen s → pocket_tracks seen (train_events samples labels max_iterator s).
Proof.
  intros Hs. unfold train_events.
  destruct (getitems _ labels); [by apply train_passes_tracks|done].
Qed.

Lemma session_tracks calls s seen :
  tracked seen s →
  pocket_tracks seen (session_events calls s)
  ∧ tracked (seen ++ map ev_misclassifies (session_events calls s)) (session calls s).
Proof.
  revert s seen. induction calls as [|c rest IH]; intros s seen Hs.
  - cbn [session_events session map]. by rewrite app_nil_r.
  - cbn [session_events session].
    pose proof (train_events_tracks (call_samples c) (call_labels c)
                  (call_max_iterator c) s seen Hs) as Hes.
    pose proof (tracked_after _ _ _ _ Hs Hes (train_pocket _ _ _ s)) as Hs'.
    destruct (IH _ _ Hs') as [Hrest Hfinal].
    split.
    + apply pocket_tracks_app. by split.
    + by rewrite map_app, app_assoc.
Qed.

Lemma init_tracked d (class_labels : L * L) : tracked [] (init d class_labels).
Proof. split; [done|constructor]. Qed.

End Calls.

(** ** Construction, label translation and classification *)

Section Construction.
Context {A : Arith} {I : Inner A} {L : Type} `{Countable L}.

Local Abbreviation state := (@state A L _ _).
Local Abbreviation pass_event := (@pass_event A L _ _).

Implicit Types (s : state) (e : pass_event) (m : Z) (es : list pass_event).

Lemma init_self d (class_labels : L * L) :
  pocket (self (init d class_labels)) =
    mkPocket (best_weights (pocket (self (init d class_labels)))) (-1)
  ∧ misclassify_record (self (init d class_labels)) = []
  ∧ _label_map (self (init d class_labels)) = label_map_of class_labels
  ∧ _reversed_label_map (self (init d class_labels)) = reversed_label_map_of class_labels.
Proof. done. Qed.

Lemma init_weights d (class_labels : L * L) :
  deref (init d class_labels) (weights (self (init d class_labels))) = np_zeros (d + 1).
Proof.
  unfold init, Pocket_init, alloc, deref. cbn [heap self weights].
  by rewrite lookup_insert_eq.
Qed.

(** The two arrays made by the constructor are distinct objects. *)
Lemma init_distinct d (class_labels : L * L) :
  best_weights (pocket (self (init d class_labels))) ≠ weights (self (init d class_labels)).
Proof.
  unfold init, Pocket_init, alloc. cbn [self pocket best_weights weights].
  intros Heq.
  pose proof (is_fresh (dom (<[fresh (dom (∅ : gmap loc (list num))) :=
                               np_zeros (d + 1)]> (∅ : gmap loc (list num))))) as Hf.
  rewrite <- Heq in Hf. apply Hf. rewrite dom_insert. set_solver.
Qed.

Lemma init_best_weights d (class_labels : L * L) :
  deref (init d class_labels) (best_weights (pocket (self (init d class_labels))))
    = np_zeros (d + 1).
Proof.
  pose proof (init_distinct d class_labels) as Hne.
  unfold init, Pocket_init, alloc, deref in *.
  cbn [heap self pocket best_weights weights] in *.
  rewrite lookup_insert_ne by done. by rewrite lookup_insert_eq.
Qed.

Lemma label_map_of_lookup (class_labels : L * L) :
  label_map_of class_labels !! 1 = Some class_labels.1
  ∧ label_map_of class_labels !! (-1) = Some class_labels.2.
Proof.
  unfold label_map_of. split.
  - rewrite lookup_insert_ne by done. by rewrite lookup_insert_eq.
  - by rewrite lookup_insert_eq.
Qed.

Lemma reversed_label_map_of_lookup (class_labels : L * L) (l : L) :
  reversed_label_map_of class_labels !! l =
    if decide (l = class_labels.2) then Some (-1)
    else if decide (l = class_labels.1) then Some 1 else None.
Proof.
  unfold reversed_label_map_of.
  destruct (decide (l = class_labels.2)) as [->|Hne2].
  - by rewrite lookup_insert_eq.
  - rewrite lookup_insert_ne by done.
    destruct (decide (l = class_labels.1)) as [->|Hne1].
    + by rewrite lookup_insert_eq.
    + rewrite lookup_insert_ne by done. done.
Qed.

(** *** [[d[k] for k in ks]] *)

Lemma getitems_defined {K V} `{Countable K} (d : gmap K V) (ks : list K) :
  Forall (fun k => is_Some (d !! k)) ks → ∃ vs, getitems d ks = Ok vs.
Proof.
  induction 1 as [|k ks [v Hv] _ [vs IH]]; [by exists []|].
  exists (v :: vs). cbn [getitems]. unfold getitem. by rewrite Hv, IH.
Qed.

Lemma getitems_missing {K V} `{Countable K} (d : gmap K V) (ks : list K) :
  Exists (fun k => d !! k = None) ks → getitems d ks = Raise KeyError.
Proof.
  induction ks as [|k ks IH]; intros Hex; [by inversion Hex|].
  cbn [getitems]. unfold getitem.
  destruct (d !! k) as [v|] eqn:Hk; [|done].
  rewrite IH; [done|]. inversion Hex; [congruence|done].
Qed.

Lemma getitems_map {X K V} `{Countable K} (d : gmap K V) (f : X → K) (g : X → V)
    (xs : list X) :
  (∀ x, d !! f x = Some (g x)) → getitems d (map f xs) = Ok (map g xs).
Proof.
  intros Hfg. induction xs as [|x xs IH]; [done|].
  cbn [map getitems]. unfold getitem. by rewrite Hfg, IH.
Qed.

(** *** [classify] on a batch of well-shaped samples *)

Lemma classify_rows s new_data w0 ws L0 L1 :
  deref s (weights (self s)) = w0 :: ws →
  _label_map (self s) !! 1 = Some L0 →
  _label_map (self s) !! (-1) = Some L1 →
  new_data ≠ [] →
  Forall (fun sample => length sample = length ws) new_data →
  classify new_data s =
    (s, Ok (map (fun i => if ge_zero (add (inner_at new_data ws i) w0) then L0 else L1)
              (seq 0 (length new_data)))).
Proof.
  intros Hw H1 H2 Hne Hlen.
  unfold classify, _linear_combination_rows, np_inner_rows. unfold_monad.
  cbn beta iota. rewrite Hw. change (drop 1 (w0 :: ws)) with ws.
  destruct new_data as [|r rest]; [done|].
  assert (forallb (fun r' => Nat.eqb (length r') (length r)) (r :: rest) = true) as ->.
  { apply forallb_forall. intros x Hx%list_elem_of_In.
    rewrite Forall_forall in Hlen.
    rewrite (Hlen x Hx), (Hlen r) by left. apply Nat.eqb_refl. }
  rewrite decide_True by (by inversion Hlen).
  cbn beta iota. f_equal.
  rewrite map_map.
  apply (getitems_map _ (fun i => np_where (add (inner_at (r :: rest) ws i) w0))
           (fun i => if ge_zero (add (inner_at (r :: rest) ws i) w0) then L0 else L1)).
  intros i. unfold np_where. by destruct (ge_zero _).
Qed.

Lemma classify_empty s :
  length (drop 1 (deref s (weights (self s)))) ≠ 0%nat →
  classify [] s = (s, Raise ValueError).
Proof.
  intros Hd. unfold classify, _linear_combination_rows, np_inner_rows. unfold_monad.
  cbn beta iota. by rewrite decide_False.
Qed.

End Construction.

(** ** The pocket shares the array of [self.weights] *)

Section Sharing.
Context {A : Arith} {I : Inner A} {L : Type} `{Countable L}.

Local Abbreviation state := (@state A L _ _).
Local Abbreviation pass_event := (@pass_event A L _ _).
Local Abbreviation call := (@call A L).

Implicit Types (s : state) (e : pass_event) (m : Z) (es : list pass_event).

(** Every completed pass comes from running [train_pass] on some state and
    comparing with the pocket; the field [self.weights] is never rebound. *)
Lemma train_passes_event n samples codes s e :
  e ∈ train_passes n samples codes s →
  ∃ s0, train_pass samples codes s0 = (ev_trained e, Ok (ev_misclassifies e))
        ∧ ev_compared e = (update_pocket (ev_misclassifies e) (ev_trained e)).1
        ∧ weights (self s0) = weights (self s).
Proof.
  revert s. induction n as [|n IH]; intros s; [by intros ?%elem_of_nil|].
  cbn [train_passes].
  pose proof (train_pass_self samples codes s) as Hself.
  destruct (train_pass samples codes s) as [s1 [m|err]] eqn:Epass;
    [|by intros ?%elem_of_nil].
  cbn [fst] in Hself.
  intros [->|Hin]%elem_of_cons.
  - by exists s.
  - destruct (m =? 0); [by apply elem_of_nil in Hin|].
    apply IH in Hin as (s0 & Hp & Hc & Hw). exists s0. split; [done|]. split; [done|].
    rewrite Hw.
    destruct (append_record_fields (update_pocket m s1).1) as (_ & _ & -> & _).
    destruct (update_pocket_fields m s1) as (-> & _). by rewrite Hself.
Qed.

Lemma update_pocket_shared m s :
  shared s → 0 ≤ m →
  best_weights (pocket (self (update_pocket m s).1)) = weights (self s)
  ∧ misclassify_count (pocket (self (update_pocket m s).1)) ≠ -1.
Proof.
  intros Hs Hm. rewrite update_pocket_pocket.
  destruct Hs as [Hc|Hb].
  - rewrite Hc. cbn. split; [done|lia].
  - destruct (Z.eqb_spec (misclassify_count (pocket (self s))) (-1));
      cbn [orb best_weights misclassify_count]; [split; [done|lia]|].
    destruct (_ || _); cbn [best_weights misclassify_count]; split; try done; lia.
Qed.

Lemma train_passes_shared n samples codes s e :
  shared s → e ∈ train_passes n samples codes s →
  best_weights (pocket (self (ev_compared e))) = weights (self (ev_compared e)).
Proof.
  revert s. induction n as [|n IH]; intros s Hs; [by intros ?%elem_of_nil|].
  cbn [train_passes].
  pose proof (train_pass_self samples codes s) as Hself.
  destruct (train_pass samples codes s) as [s1 [m|err]] eqn:Epass;
    [|by intros ?%elem_of_nil].
  cbn [fst] in Hself.
  assert (shared s1) as Hs1 by (unfold shared; by rewrite Hself).
  assert (0 ≤ m) as Hm by (by eapply train_pass_nonneg).
  destruct (update_pocket_shared m s1 Hs1 Hm) as [Hb Hc].
  intros [->|Hin]%elem_of_cons.
  - cbn [ev_compared]. rewrite Hb. by destruct (update_pocket_fields m s1) as (-> & _).
  - destruct (m =? 0); [by apply elem_of_nil in Hin|].
    eapply IH; [|done]. right.
    destruct (append_record_fields (update_pocket m s1).1) as (_ & -> & -> & _).
    rewrite Hb. by destruct (update_pocket_fields m s1) as (-> & _).
Qed.

Lemma shared_after es s s' :
  shared s →
  (∀ e, e ∈ es →
     best_weights (pocket (self (ev_compared e))) = weights (self (ev_compared e))) →
  (∀ e, e ∈ es → weights (self (ev_compared e)) = weights (self s')) →
  weights (self s') = weights (self s) →
  pocket (self s') =
    from_option (fun e => pocket (self (ev_compared e))) (pocket (self s)) (last es) →
  shared s'.
Proof.
  intros Hs Hes Hws Hw Hp. unfold shared. rewrite Hp, Hw.
  destruct (last es) as [e|] eqn:E; cbn [from_option]; [|done].
  right. apply last_Some_elem_of in E. rewrite (Hes e E), (Hws e E). done.
Qed.

Lemma train_events_weights samples labels max_iterator s e :
  e ∈ train_events samples labels max_iterator s →
  weights (self (ev_compared e)) = weights (self s).
Proof.
  unfold train_events.
  destruct (getitems _ labels) as [codes|]; [|by intros ?%elem_of_nil].
  intros (s0 & Hp & -> & <-)%train_passes_event.
  destruct (update_pocket_fields (ev_misclassifies e) (ev_trained e)) as (-> & _).
  pose proof (train_pass_self samples codes s0) as Hself. rewrite Hp in Hself.
  cbn [fst] in Hself. by rewrite Hself.
Qed.

Lemma train_events_shared samples labels max_iterator s e :
  shared s → e ∈ train_events samples labels max_iterator s →
  best_weights (pocket (self (ev_compared e))) = weights (self (ev_compared e)).
Proof.
  unfold train_events. destruct (getitems _ labels); [|by intros _ ?%elem_of_nil].
  apply train_passes_shared.
Qed.

Lemma train_shared samples labels max_iterator s :
  shared s → shared (train samples labels max_iterator s).1.
Proof.
  intros Hs.
  destruct (train_fields samples labels max_iterator s) as (Hw & _).
  eapply (shared_after (train_events samples labels max_iterator s)); [done| | |done|].
  - intros e. by apply train_events_shared.
  - intros e He. rewrite Hw. by eapply train_events_weights.
  - apply train_pocket.
Qed.

(** After any completed pass of any sequence of calls on a new classifier,
    [self.pocket.best_weights] and [self.weights] are one array. *)
Lemma session_shared calls s e :
  shared s → e ∈ session_events calls s →
  best_weights (pocket (self (ev_compared e))) = weights (self (ev_compared e)).
Proof.
  revert s. induction calls as [|c rest IH]; intros s Hs; [by intros ?%elem_of_nil|].
  cbn [session_events]. intros [Hin|Hin]%elem_of_app.
  - by eapply train_events_shared.
  - eapply IH; [|done]. by apply train_shared.
Qed.

Lemma init_shared d (class_labels : L * L) : shared (init d class_labels).
Proof. by left. Qed.

End Sharing.

(** ** Sums with zero weights *)

Lemma rational_sum_zero_product (x : @num rational) :
  True → add zero (mul x zero) = zero.
Proof. intros _. cbn. by rewrite Qcmult_0_r, Qcplus_0_r. Qed.

(** In binary64 the product of a finite double and +0 is +0 or -0, and
    either one added to +0 gives +0. *)
Lemma binary64_sum_zero_product (x : @num binary64) :
  finite x → add zero (mul x zero) = zero.
Proof.
  unfold finite. cbn. intros Hx.
  assert ((x * 0 = 0 \/ x * 0 = -0)%float) as [-> | ->].
  { rewrite <- (SF2Prim_Prim2SF (x * 0)), mul_spec.
    change (Prim2SF 0) with (S754_zero false).
    destruct (Prim2SF x) as [sx| | |sx mx ex]; try contradiction.
    - destruct sx; [right|left]; vm_compute; reflexivity.
    - destruct sx; [right|left]; vm_compute; reflexivity. }
  - vm_compute; reflexivity.
  - vm_compute; reflexivity.
Qed.

(** ** binary64 and the sign of zero *)

Lemma float_of_spec_inj (x y : float) : Prim2SF x = Prim2SF y → x = y.
Proof. intros Heq. by rewrite <- (SF2Prim_Prim2SF x), <- (SF2Prim_Prim2SF y), Heq. Qed.

Lemma is_zero_cases (x : float) : is_zero x → x = 0%float ∨ x = (-0)%float.
Proof.
  unfold is_zero. destruct (Prim2SF x) as [sx| | |] eqn:Ex; try done. intros _.
  destruct sx; [right|left]; apply float_of_spec_inj; by rewrite Ex.
Qed.

Lemma add_zero_right (a z : float) : is_zero z → ¬ is_zero a → (a + z)%float = a.
Proof.
  unfold is_zero. intros Hz Ha. apply float_of_spec_inj. rewrite add_spec.
  destruct (Prim2SF z); try done. by destruct (Prim2SF a).
Qed.

Lemma add_zero_left (z b : float) : is_zero z → ¬ is_zero b → (z + b)%float = b.
Proof.
  unfold is_zero. intros Hz Hb. apply float_of_spec_inj. rewrite add_spec.
  destruct (Prim2SF z); try done. by destruct (Prim2SF b).
Qed.

Lemma add_zeros (a b : float) : is_zero a → is_zero b → is_zero (a + b).
Proof.
  intros [-> | ->]%is_zero_cases [-> | ->]%is_zero_cases; vm_compute; exact I.
Qed.

Lemma is_zero_dec (x : float) : is_zero x ∨ ¬ is_zero x.
Proof. unfold is_zero. destruct (Prim2SF x); tauto. Qed.

Lemma same_value_refl (x : float) : same_value x x.
Proof. by left. Qed.

Lemma same_value_trans (x y z : float) :
  same_value x y → same_value y z → same_value x z.
Proof.
  intros [->|[Hx Hy]] [->|[Hy' Hz]]; unfold same_value; auto.
Qed.

Lemma add_same (a a' b b' : float) :
  same_value a a' → same_value b b' → same_value (a + b) (a' + b').
Proof.
  intros [->|[Ha Ha']] [->|[Hb Hb']].
  - by left.
  - destruct (is_zero_dec a') as [Hz|Hnz].
    + right. split; by apply add_zeros.
    + left. by rewrite !add_zero_right.
  - destruct (is_zero_dec b') as [Hz|Hnz].
    + right. split; by apply add_zeros.
    + left. by rewrite !add_zero_left.
  - right. split; by apply add_zeros.
Qed.

Lemma mul_same (a b b' : float) : same_value b b' → same_value (a * b) (a * b').
Proof.
  intros [->|[Hb Hb']]; [by left|]. unfold is_zero in Hb, Hb'.
  destruct (Prim2SF b) as [sb| | |] eqn:Eb; try done.
  destruct (Prim2SF b') as [sb'| | |] eqn:Eb'; try done.
  destruct (Prim2SF a) as [sa| | |sa ma ea] eqn:Ea.
  - right. unfold is_zero. by rewrite !mul_spec, Ea, Eb, Eb'.
  - left. apply float_of_spec_inj. by rewrite !mul_spec, Ea, Eb, Eb'.
  - left. apply float_of_spec_inj. by rewrite !mul_spec, Ea, Eb, Eb'.
  - right. unfold is_zero. by rewrite !mul_spec, Ea, Eb, Eb'.
Qed.

Lemma leb_same (a a' : float) :
  same_value a a' → PrimFloat.leb 0%float a = PrimFloat.leb 0%float a'.
Proof.
  intros [->|[[-> | ->]%is_zero_cases [-> | ->]%is_zero_cases]]; reflexivity.
Qed.

Lemma fold_add_same (ps ps' : list float) (acc acc' : float) :
  Forall2 same_value ps ps' → same_value acc acc' →
  same_value (fold_left PrimFloat.add ps acc) (fold_left PrimFloat.add ps' acc').
Proof.
  intros Hps. revert acc acc'.
  induction Hps as [|p p' ps ps' Hp _ IH]; intros acc acc' Hacc; [done|].
  cbn [fold_left]. apply IH. by apply add_same.
Qed.

Lemma dot_same (x w w' : list float) :
  Forall2 same_value w w' →
  same_value (dot (A := binary64) x w) (dot (A := binary64) x w').
Proof.
  intros Hw. unfold dot. apply fold_add_same; [|apply same_value_refl].
  revert x. induction Hw as [|b b' w w' Hb _ IH]; intros [|a x]; cbn; try constructor.
  - by apply mul_same.
  - apply IH.
Qed.

Lemma zero_times_finite (x : float) : finite x → is_zero (0 * x).
Proof.
  unfold finite, is_zero. rewrite mul_spec.
  change (Prim2SF 0) with (S754_zero false).
  by destruct (Prim2SF x).
Qed.

Lemma add_zero_same (a z : float) : is_zero z → same_value (a + z) a.
Proof.
  intros Hz. destruct (is_zero_dec a) as [Ha|Ha].
  - right. split; [by apply add_zeros|done].
  - left. by apply add_zero_right.
Qed.

(** In binary64 an update by zero over finite attributes changes the weights
    at most in the sign of a zero.  Whatever way [np.inner] sums the
    products, the laws hold as soon as its test [>= 0.0] does not see that
    sign. *)
Lemma binary64_zero_update_laws_of (I : Inner binary64) :
  (∀ x w w', Forall2 same_value w w' →
     ge_zero (Arith := binary64) (inner x w) = ge_zero (Arith := binary64) (inner x w')) →
  zero_update_laws (A := binary64) (I := I) finite same_value.
Proof.
  intros Hsign.
  split; [exact same_value_refl|]. split; [exact same_value_trans|].
  split; [|split; [|exact Hsign]].
  - intros w x Hx. apply add_zero_same. by apply zero_times_finite.
  - intros w. by apply add_zero_same.
Qed.

(** With the products summed from the left the test does not see it. *)
Lemma binary64_zero_update_laws :
  zero_update_laws (A := binary64) (I := sequential binary64) finite same_value.
Proof.
  apply binary64_zero_update_laws_of.
  intros x w w' Hw. apply leb_same. by apply dot_same.
Qed.

Lemma add_zero_again (w z : float) : is_zero z → (w + z + z)%float = (w + z)%float.
Proof.
  intros Hz. destruct (is_zero_dec w) as [Hw|Hw].
  - apply is_zero_cases in Hw as [-> | ->]; apply is_zero_cases in Hz as [-> | ->];
      reflexivity.
  - by rewrite !(add_zero_right w z).
Qed.

Lemma add_zero_swap (w z z' : float) :
  is_zero z → is_zero z' → (w + z + z')%float = (w + z' + z)%float.
Proof.
  intros Hz Hz'. destruct (is_zero_dec w) as [Hw|Hw].
  - apply is_zero_cases in Hw as [-> | ->]; apply is_zero_cases in Hz as [-> | ->];
      apply is_zero_cases in Hz' as [-> | ->]; reflexivity.
  - by rewrite (add_zero_right w z), (add_zero_right w z'), (add_zero_right w z).
Qed.

(** In binary64 the zeros that a pass without misclassification adds are
    absorbed. *)
Lemma binary64_zero_updates_absorbed : zero_updates_absorbed (A := binary64) finite.
Proof.
  assert (∀ z : float,
            z = float_of_Z 0 ∨ (∃ x, finite x ∧ z = (float_of_Z 0 * x)%float) →
            is_zero z) as Hnull.
  { intros z [->|(x & Hx & ->)]; [exact I|by apply zero_times_finite]. }
  split.
  - intros w z Hz. apply add_zero_again, Hnull, Hz.
  - intros w z z' Hz Hz'. apply add_zero_swap; apply Hnull; [exact Hz|exact Hz'].
Qed.

Lemma rational_zero_updates_absorbed :
  zero_updates_absorbed (A := rational) (fun _ => True).
Proof.
  assert (∀ z : Qc,
            z = Q2Qc (inject_Z 0) ∨ (∃ x, True ∧ z = Qcmult (Q2Qc (inject_Z 0)) x) →
            z = Q2Qc 0) as Hnull.
  { intros z [->|(x & _ & ->)]; [done|apply Qcmult_0_l]. }
  split.
  - intros w z Hz. cbn. by rewrite (Hnull z Hz), !Qcplus_0_r.
  - intros w z z' Hz Hz'. cbn. by rewrite (Hnull z Hz), (Hnull z' Hz'), !Qcplus_0_r.
Qed.

(** In exact rational arithmetic no weight changes at all. *)
Lemma rational_zero_update_laws :
  zero_update_laws (A := rational) (I := sequential rational) (fun _ => True) eq.
Proof.
  split; [done|]. split; [by intros x y z -> ->|]. split; [|split].
  - intros w x _. cbn. by rewrite Qcmult_0_l, Qcplus_0_r.
  - intros w. cbn. apply Qcplus_0_r.
  - intros x w w' Hw. by apply list_eq_Forall2 in Hw as ->.
Qed.

Definition rational_zero_sums : ZeroSums rational :=
  Build_ZeroSums rational (fun _ => True) rational_sum_zero_product eq_refl eq_refl.

Definition binary64_zero_sums : ZeroSums binary64 :=
  Build_ZeroSums binary64 finite binary64_sum_zero_product eq_refl eq_refl.

(** ** Calls of [train] that run no pass, or one pass over no sample *)

Section Degenerate.
Context {A : Arith} {I : Inner A} {L : Type} `{Countable L}.

Local Abbreviation state := (@state A L _ _).

Implicit Types (s : state) (class_labels : L * L).

Lemma translate_class_labels class_labels (labels : list L) :
  Forall (fun l => l = class_labels.1 ∨ l = class_labels.2) labels →
  ∃ codes, getitems (reversed_label_map_of class_labels) labels = Ok codes.
Proof.
  intros Hl. apply getitems_defined.
  eapply Forall_impl; [done|]. intros l Hcase. cbn beta in Hcase.
  rewrite reversed_label_map_of_lookup.
  destruct (decide (l = class_labels.2)); [done|].
  destruct (decide (l = class_labels.1)); [done|]. by destruct Hcase.
Qed.

(** C9. When [max_iterator <= 0] and the labels are class labels, [train]
    runs no pass and returns with the whole state as it was: the array of
    weights, the pocket and the record.  On a new classifier the pocket still
    holds the sentinel -1 and an array of zeros. *)
Theorem train_without_iterations s samples labels max_iterator class_labels :
  _reversed_label_map (self s) = reversed_label_map_of class_labels →
  Forall (fun l => l = class_labels.1 ∨ l = class_labels.2) labels →
  max_iterator ≤ 0 →
  train samples labels max_iterator s = (s, Ok tt)
  ∧ train_events samples labels max_iterator s = []
  ∧ (∀ d, s = init d class_labels →
       misclassify_count (pocket (self s)) = -1
       ∧ deref s (best_weights (pocket (self s))) = np_zeros (d + 1)
       ∧ deref s (weights (self s)) = np_zeros (d + 1)
       ∧ misclassify_record (self s) = []).
Proof.
  intros Hmap Hlabels Hmax.
  destruct (translate_class_labels _ _ Hlabels) as [codes Hcodes].
  rewrite train_unfold. unfold train_events. rewrite Hmap, Hcodes.
  replace (Z.to_nat max_iterator) with 0%nat by lia.
  split; [done|]. split; [done|].
  intros d ->. split; [done|]. split; [apply init_best_weights|].
  split; [apply init_weights|done].
Qed.

(** C10. A label that is not one of the two class labels makes [train] raise
    [KeyError] in the translation of the labels: no pass begins, and the array
    of weights, the pocket and the record are as they were. *)
Theorem train_unknown_label s samples labels max_iterator class_labels :
  _reversed_label_map (self s) = reversed_label_map_of class_labels →
  Exists (fun l => l ≠ class_labels.1 ∧ l ≠ class_labels.2) labels →
  train samples labels max_iterator s = (s, Raise KeyError)
  ∧ train_events samples labels max_iterator s = [].
Proof.
  intros Hmap Hlabels.
  assert (getitems (reversed_label_map_of class_labels) labels = Raise KeyError) as Hraise.
  { apply getitems_missing. eapply Exists_impl; [done|].
    intros l [Hne1 Hne2]. rewrite reversed_label_map_of_lookup.
    by rewrite !decide_False. }
  rewrite train_unfold. unfold train_events. by rewrite Hmap, Hraise.
Qed.

(** C8. On a new classifier, [train] with no sample and no label and with
    [max_iterator >= 1] runs one pass: it writes to no array, counts no
    misclassification, sets the pocket to the weights, which are all zero, with
    the count 0, appends nothing to the record, and stops. *)
Theorem train_without_samples d class_labels max_iterator :
  1 ≤ max_iterator →
  let s0 := init d class_labels in
  let s1 := (train [] [] max_iterator s0).1 in
  train [] [] max_iterator s0 = (s1, Ok tt)
  ∧ map ev_misclassifies (train_events [] [] max_iterator s0) = [0]
  ∧ heap s1 = heap s0
  ∧ deref s1 (weights (self s1)) = np_zeros (d + 1)
  ∧ pocket (self s1) = mkPocket (weights (self s0)) 0
  ∧ deref s1 (best_weights (pocket (self s1))) = np_zeros (d + 1)
  ∧ misclassify_record (self s1) = [].
Proof.
  intros Hmax. cbn zeta.
  rewrite !train_unfold. unfold train_events. cbn [getitems].
  destruct (Z.to_nat max_iterator) as [|n] eqn:En; [lia|].
  rewrite for_range_step. cbn [train_passes].
  change (train_pass [] [] (init d class_labels)) with (init d class_labels, Ok 0).
  cbn [Z.eqb fst map ev_misclassifies].
  split; [done|]. split; [done|].
  rewrite update_pocket_heap.
  destruct (update_pocket_fields 0 (init d class_labels)) as (Hw & Hr & _).
  split; [done|].
  assert (∀ l, deref (update_pocket 0 (init d class_labels)).1 l
               = deref (init d class_labels) l) as Hderef.
  { intros l. unfold deref. by rewrite update_pocket_heap. }
  rewrite update_pocket_pocket, Hw, Hr, !Hderef.
  cbn [best_weights]. rewrite init_weights.
  split; [done|]. split; [done|]. split; [done|]. done.
Qed.

End Degenerate.

Lemma train_without_iterations_witness :
  train (A := binary64) Docstring.samples Docstring.labels 0 Docstring.classifier
    = (Docstring.classifier, Ok tt)
  ∧ train_events (A := binary64) Docstring.samples Docstring.labels 0
      Docstring.classifier = []
  ∧ (∀ d, Docstring.classifier = init d (-1, 1) →
       misclassify_count (pocket (self Docstring.classifier)) = -1
       ∧ deref Docstring.classifier (best_weights (pocket (self Docstring.classifier)))
           = np_zeros (d + 1)
       ∧ deref Docstring.classifier (weights (self Docstring.classifier))
           = np_zeros (d + 1)
       ∧ misclassify_record (self Docstring.classifier) = []).
Proof.
  apply (train_without_iterations (A := binary64) Docstring.classifier
           Docstring.samples Docstring.labels 0 (-1, 1)).
  - reflexivity.
  - unfold Docstring.labels. repeat (constructor; [cbn; auto|]). constructor.
  - lia.
Defined.

Lemma train_unknown_label_witness :
  train (A := binary64) Docstring.samples [-1; 0; 1] 10 Docstring.classifier
    = (Docstring.classifier, Raise KeyError)
  ∧ train_events (A := binary64) Docstring.samples [-1; 0; 1] 10
      Docstring.classifier = [].
Proof.
  apply (train_unknown_label (A := binary64) Docstring.classifier
           Docstring.samples [-1; 0; 1] 10 (-1, 1)).
  - reflexivity.
  - apply Exists_cons_tl, Exists_cons_hd. cbn. split; discriminate.
Defined.

Lemma train_without_samples_witness :
  let s0 := init (A := binary64) (L := Z) 4 (-1, 1) in
  let s1 := (train [] [] 10 s0).1 in
  train [] [] 10 s0 = (s1, Ok tt)
  ∧ map ev_misclassifies (train_events [] [] 10 s0) = [0]
  ∧ heap s1 = heap s0
  ∧ deref s1 (weights (self s1)) = np_zeros (4 + 1)
  ∧ pocket (self s1) = mkPocket (weights (self s0)) 0
  ∧ deref s1 (best_weights (pocket (self s1))) = np_zeros (4 + 1)
  ∧ misclassify_record (self s1) = [].
Proof.
  apply (train_without_samples (A := binary64) (L := Z) 4 (-1, 1) 10). lia.
Defined.

(** ** [classify] *)

Section Classify.
Context {A : Arith} {I : Inner A} {L : Type} `{Countable L}.

Local Abbreviation state := (@state A L _ _).

Implicit Types (s : state) (class_labels : L * L).

(** C2, as amended.  For a batch [new_data] that is not empty and whose
    samples all have as many attributes as [self.weights[1:]] has entries,
    [classify] returns, without changing the state, the list that has for
    each sample, in order, [class_labels[0]] when
    [np.inner(new_data, weights[1:])[i] + weights[0] >= 0.0] and
    [class_labels[1]] otherwise, [weights] being the array of
    [self.weights] and the inner product being whatever [np.inner] returns
    for that batch. *)
Theorem classify_well_shaped s new_data w0 ws class_labels :
  deref s (weights (self s)) = w0 :: ws →
  _label_map (self s) = label_map_of class_labels →
  new_data ≠ [] →
  Forall (fun sample => length sample = length ws) new_data →
  let label_at i :=
    if ge_zero (add (inner_at new_data ws i) w0)
    then class_labels.1 else class_labels.2 in
  let labels := map label_at (seq 0 (length new_data)) in
  classify new_data s = (s, Ok labels)
  ∧ length labels = length new_data
  ∧ ∀ i, (i < length new_data)%nat → labels !! i = Some (label_at i).
Proof.
  intros Hw Hmap Hne Hlen. cbn zeta.
  destruct (label_map_of_lookup class_labels) as [H1 H2].
  split; [|split].
  - apply classify_rows; by rewrite ?Hmap.
  - by rewrite length_map, length_seq.
  - intros i Hi. by rewrite list_lookup_fmap, lookup_seq_lt.
Qed.

End Classify.

(** ** A new classifier *)

Section NewClassifier.
Context {A : Arith} {L : Type} `{Countable L}.

Local Abbreviation state := (@state A L _ _).

Implicit Types (s : state) (class_labels : L * L).

(** Summed from the left, the inner products of a batch are those of its
    rows. *)
Lemma sequential_rows (rows : list (list num)) (b : list num) :
  map (inner_at (Inner := sequential A) rows b) (seq 0 (length rows))
  = map (fun row => dot row b) rows.
Proof.
  apply list_eq. intros i. rewrite !list_lookup_fmap.
  destruct (decide (i < length rows)%nat) as [Hi|Hi].
  - rewrite lookup_seq_lt by done.
    destruct (lookup_lt_is_Some_2 rows i Hi) as [row Hrow].
    rewrite Hrow. cbn. by rewrite Hrow.
  - rewrite lookup_seq_ge by lia. by rewrite lookup_ge_None_2 by lia.
Qed.

(** With weights that are all zero, every linear combination is zero. *)
Lemma dot_zeros {Z : ZeroSums A} (sample : list num) (n : nat) :
  Forall real sample → dot sample (replicate n zero) = zero.
Proof.
  unfold dot. intros Hreal. revert n.
  induction Hreal as [|x sample Hx _ IH]; intros [|n]; try done.
  cbn [replicate zip_with fold_left]. rewrite sum_zero_product by done. apply IH.
Qed.

(** C7. A new classifier has an array of [d + 1] zeros as weights, and
    [classify] returns the first class label for every sample of a batch of
    samples with [d] attributes: each linear combination is zero, which
    [>= 0.0] sends to the code +1.  The attributes are to be real numbers: in
    binary64, doubles other than the infinities and NaN.  Neither [d > 0] nor
    the two labels being distinct is needed. *)
Theorem new_classifier_first_label {Z : ZeroSums A} d class_labels
    (new_data : list (list num)) :
  new_data ≠ [] →
  Forall (fun sample => length sample = d ∧ Forall real sample) new_data →
  let s := init d class_labels in
  deref s (weights (self s)) = replicate (d + 1) zero
  ∧ classify new_data s = (s, Ok (replicate (length new_data) class_labels.1)).
Proof.
  intros Hne Hdata. cbn zeta.
  pose proof (init_weights d class_labels) as Hw. unfold np_zeros in Hw.
  split; [done|].
  destruct (label_map_of_lookup class_labels) as [H1 H2].
  rewrite Nat.add_1_r in Hw. cbn [replicate] in Hw.
  rewrite (classify_rows _ new_data zero (replicate d zero)
             class_labels.1 class_labels.2 Hw H1 H2 Hne).
  - do 2 f_equal.
    transitivity
      (map (fun x => if ge_zero (add x zero) then class_labels.1 else class_labels.2)
         (map (inner_at (Inner := sequential A) new_data (replicate d zero))
            (seq 0 (length new_data)))); [by rewrite map_map|].
    rewrite sequential_rows, map_map. clear Hne.
    induction Hdata as [|sample rest [_ Hreal] _ IH]; [done|].
    cbn [map length replicate].
    by rewrite dot_zeros, sum_zero_zero, zero_ge_zero, IH.
  - rewrite length_replicate. eapply Forall_impl; [done|]. by intros sample [? _].
Qed.

End NewClassifier.

(** C2, as stated, fails on the empty batch: numpy reads [[]] as an array of
    shape (0,), which [np.inner] cannot combine with the four entries of
    [weights[1:]], so [classify] raises instead of returning the empty
    list. *)
Lemma classify_no_sample_raises :
  classify (A := binary64) [] Docstring.classifier
    = (Docstring.classifier, Raise ValueError)
  ∧ ¬ (∃ labels : list Z,
         (classify (A := binary64) [] Docstring.classifier).2 = Ok labels
         ∧ length labels = 0%nat).
Proof.
  assert (classify (A := binary64) [] Docstring.classifier
          = (Docstring.classifier, Raise ValueError)) as Hraise.
  { apply classify_empty. vm_compute. discriminate. }
  split; [done|]. rewrite Hraise. intros (labels & Hok & _). discriminate Hok.
Qed.

Lemma classify_well_shaped_witness :
  let label_at i :=
    if ge_zero (Arith := binary64)
         (add (inner_at (Inner := sequential binary64) Docstring.new_data
                 [0; 0; 0; 0]%float i) 0%float)
    then -1 else 1 in
  let labels := map label_at (seq 0 (length Docstring.new_data)) in
  classify (A := binary64) Docstring.new_data Docstring.classifier
    = (Docstring.classifier, Ok labels)
  ∧ length labels = length Docstring.new_data
  ∧ ∀ i, (i < length Docstring.new_data)%nat → labels !! i = Some (label_at i).
Proof.
  apply (classify_well_shaped (A := binary64) Docstring.classifier
           Docstring.new_data 0%float [0; 0; 0; 0]%float (-1, 1)).
  - reflexivity.
  - reflexivity.
  - discriminate.
  - repeat constructor.
Defined.

Lemma new_classifier_first_label_witness :
  deref (A := binary64) Docstring.classifier (weights (self Docstring.classifier))
    = replicate (4 + 1) (zero (Arith := binary64))
  ∧ classify (A := binary64) Docstring.new_data Docstring.classifier
    = (Docstring.classifier, Ok (replicate (length Docstring.new_data) (-1))).
Proof.
  apply (new_classifier_first_label (A := binary64) (Z := binary64_zero_sums)
           4 (-1, 1) Docstring.new_data).
  - discriminate.
  - repeat (constructor; [split; [reflexivity|repeat constructor]|]). constructor.
Defined.

(** ** The pocket's count over the passes *)

Section PocketCount.
Context {A : Arith} {I : Inner A} {L : Type} `{Countable L}.

Local Abbreviation state := (@state A L _ _).
Local Abbreviation pass_event := (@pass_event A L _ _).
Local Abbreviation call := (@call A L).

Implicit Types (s : state) (e : pass_event) (m : Z) (es : list pass_event)
  (p : Pocket).

Lemma fold_min_le (l : list Z) (x : Z) :
  fold_left Z.min l x ≤ x ∧ Forall (fun y => fold_left Z.min l x ≤ y) l.
Proof.
  revert x. induction l as [|y l IH]; intros x; [split; [cbn; lia|constructor]|].
  cbn [fold_left]. destruct (IH (Z.min x y)) as [Hle Hall].
  split; [lia|]. constructor; [lia|done].
Qed.

(** [minimum] returns an element of the list that is below all of them. *)
Lemma minimum_least (l : list Z) (x : Z) :
  minimum l = Some x → Forall (fun y => x ≤ y) l.
Proof.
  destruct l as [|y l]; [done|]. intros [= <-].
  destruct (fold_min_le l y) as [Hle Hall]. by constructor.
Qed.

Lemma minimum_elem (l : list Z) (x : Z) : minimum l = Some x → x ∈ l.
Proof.
  destruct l as [|y l]; [done|]. intros [= <-].
  revert y. induction l as [|z l IH]; intros y; cbn [fold_left]; [by left|].
  specialize (IH (Z.min y z)). apply elem_of_cons in IH as [Heq|Hin].
  - rewrite Heq. destruct (Z.min_spec y z) as [[_ ->]|[_ ->]]; [left|right; left].
  - by do 2 right.
Qed.

Lemma train_passes_held n samples codes s :
  pocket_held (pocket (self s)) (train_passes n samples codes s).
Proof.
  revert s. induction n as [|n IH]; intros s; [done|].
  cbn [train_passes].
  pose proof (train_pass_self samples codes s) as Hself.
  destruct (train_pass samples codes s) as [s1 [m|err]]; [|done].
  cbn [fst] in Hself. cbn [pocket_held ev_trained ev_compared].
  split; [by rewrite Hself|].
  destruct (m =? 0); [done|].
  destruct (append_record_fields (update_pocket m s1).1) as (_ & <- & _).
  apply IH.
Qed.

Lemma pocket_held_app p es1 es2 :
  pocket_held p (es1 ++ es2) ↔
  pocket_held p es1
  ∧ pocket_held (from_option (fun e => pocket (self (ev_compared e))) p (last es1)) es2.
Proof.
  revert p. induction es1 as [|e es1 IH]; intros p.
  - cbn [app pocket_held last from_option]. tauto.
  - cbn [app pocket_held]. rewrite IH, (last_cons e es1).
    destruct (last es1); cbn [from_option]; tauto.
Qed.

Lemma pocket_held_lookup p es k e e' :
  pocket_held p es → es !! k = Some e → es !! S k = Some e' →
  pocket (self (ev_trained e')) = pocket (self (ev_compared e)).
Proof.
  revert p k. induction es as [|e0 es IH]; intros p k; [done|].
  cbn [pocket_held]. intros [_ Hes]. destruct k as [|k].
  - intros [= ->]. rewrite lookup_cons_succ.
    destruct es as [|e1 es]; [done|]. intros [= ->]. by destruct Hes.
  - rewrite !lookup_cons_succ. by eapply IH.
Qed.

Lemma session_held calls s :
  pocket_held (pocket (self s)) (session_events calls s).
Proof.
  revert s. induction calls as [|c rest IH]; intros s; [done|].
  cbn [session_events]. apply pocket_held_app. split.
  - unfold train_events. destruct (getitems _ _); [apply train_passes_held|done].
  - rewrite <- train_pocket. apply IH.
Qed.

(** C3. Over any sequence of calls of [train] on a new classifier, the
    pocket's count just after the comparison of the k-th completed pass is
    the least of the misclassification counts of the first k passes; hence
    it does not increase from one completed pass to the next and is 0 from a
    pass without misclassification on.  It is not assigned between two
    comparisons, and after the calls it is that least count, or the sentinel
    -1 when no pass has completed. *)
Theorem pocket_count_is_least d (class_labels : L * L) (calls : list call) :
  let s0 := init d class_labels in
  let es := session_events calls s0 in
  (∀ k e, es !! k = Some e →
     Some (ev_pocket_count e) = minimum (map ev_misclassifies (take (S k) es)))
  ∧ (∀ k e e', es !! k = Some e → es !! S k = Some e' →
       ev_pocket_count e' ≤ ev_pocket_count e
       ∧ misclassify_count (pocket (self (ev_trained e'))) = ev_pocket_count e)
  ∧ (∀ j k e0 e, es !! j = Some e0 → ev_misclassifies e0 = 0 → (j ≤ k)%nat →
       es !! k = Some e → ev_pocket_count e = 0)
  ∧ misclassify_count (pocket (self (session calls s0)))
      = from_option id (-1) (minimum (map ev_misclassifies es)).
Proof.
  cbn zeta.
  destruct (session_tracks calls _ [] (init_tracked d class_labels)) as [Hes Hfinal].
  pose proof (pocket_tracks_nonneg _ _ Hes) as Hnonneg.
  set (es := session_events calls (init d class_labels)) in *.
  assert (∀ k e, es !! k = Some e →
     Some (ev_pocket_count e) = minimum (map ev_misclassifies (take (S k) es))) as Hleast.
  { intros k e Hk. apply (pocket_tracks_lookup [] es k e Hes Hk). }
  split; [done|]. split; [|split].
  - intros k e e' Hk Hk'. split.
    + pose proof (Hleast _ _ Hk) as He. pose proof (Hleast _ _ Hk') as He'.
      rewrite (take_S_r _ _ _ Hk'), map_app in He'. cbn [map] in He'.
      rewrite minimum_snoc, <- He in He'.
      cbn [from_option] in He'. injection He' as ->. lia.
    + unfold ev_pocket_count. f_equal.
      by eapply pocket_held_lookup; [apply (session_held calls)|..].
  - intros j k e0 e Hj Hzero Hjk Hk.
    pose proof (Hleast _ _ Hk) as He. symmetry in He.
    assert (0 ≤ ev_pocket_count e) as Hlow.
    { eapply minimum_nonneg; [|done].
      rewrite <- (take_drop (S k) es), map_app in Hnonneg.
      by apply Forall_app in Hnonneg as [? _]. }
    apply minimum_least in He. rewrite Forall_forall in He.
    assert (ev_pocket_count e ≤ 0) as Hhigh; [|lia].
    apply He. rewrite <- Hzero. apply list_elem_of_fmap_2.
    apply list_elem_of_lookup. exists j. rewrite lookup_take_lt by lia. done.
  - by destruct Hfinal as [-> _].
Qed.

(** *** The record *)

Lemma filter_all {X} (P : X → Prop) `{∀ x, Decision (P x)} (l : list X) :
  Forall P l → filter P l = l.
Proof.
  induction 1 as [|x l Hx _ IH]; [done|]. by rewrite filter_cons_True, IH.
Qed.

Lemma appended_entries_length es :
  (∀ k e, es !! k = Some e → ev_misclassifies e = 0 → length es = S k) →
  length (appended_entries es) = (length es - if final_zero es then 1 else 0)%nat.
Proof.
  unfold appended_entries, final_zero. rewrite length_map.
  induction es as [|e0 es _] using rev_ind; [done|].
  intros Hlast.
  assert (Forall (fun e => ev_misclassifies e ≠ 0) es) as Hes.
  { apply Forall_lookup. intros i e Hi Hzero.
    pose proof (lookup_lt_Some _ _ _ Hi) as Hlt.
    specialize (Hlast i e). rewrite lookup_app_l in Hlast by done.
    specialize (Hlast Hi Hzero). rewrite length_app in Hlast. cbn in Hlast. lia. }
  rewrite filter_app, filter_all by done. rewrite last_snoc, !length_app.
  destruct (Z.eqb_spec (ev_misclassifies e0) 0) as [Hz|Hz].
  - rewrite filter_cons_False by tauto. cbn. lia.
  - rewrite filter_cons_True by done. cbn. lia.
Qed.

(** C4. A call of [train] extends the record by one entry for each pass it
    completes, except for a pass without misclassification, which is the last
    pass of the call and ends it; each entry is the pocket's count just
    after the comparison of its pass. *)
Theorem record_entry_per_pass s samples labels max_iterator :
  let es := train_events samples labels max_iterator s in
  let s' := (train samples labels max_iterator s).1 in
  misclassify_record (self s') =
    misclassify_record (self s)
    ++ map ev_pocket_count (filter (fun e => ev_misclassifies e ≠ 0) es)
  ∧ length (misclassify_record (self s')) =
      (length (misclassify_record (self s)) + length es
       - if final_zero es then 1 else 0)%nat
  ∧ (∀ k e, es !! k = Some e → ev_misclassifies e = 0 →
       length es = S k
       ∧ train samples labels max_iterator s = (ev_compared e, Ok tt)).
Proof.
  cbn zeta.
  assert (∀ k e, train_events samples labels max_iterator s !! k = Some e →
            ev_misclassifies e = 0 →
            length (train_events samples labels max_iterator s) = S k
            ∧ train samples labels max_iterator s = (ev_compared e, Ok tt)) as Hstop.
  { intros k e. rewrite train_unfold. unfold train_events.
    destruct (getitems _ labels) as [codes|]; [|done].
    intros Hk Hzero.
    pose proof (train_passes_zero_last _ _ _ _ _ _ Hk Hzero) as Hlen.
    split; [done|]. apply for_range_stops; [|done].
    by rewrite last_lookup, Hlen. }
  assert (misclassify_record (self (train samples labels max_iterator s).1) =
          misclassify_record (self s)
          ++ appended_entries (train_events samples labels max_iterator s)) as Hrec.
  { rewrite train_unfold. unfold train_events.
    destruct (getitems _ labels) as [codes|]; [apply for_range_record|].
    by rewrite app_nil_r. }
  split; [done|]. split; [|done].
  rewrite Hrec, length_app, appended_entries_length.
  - destruct (train_events samples labels max_iterator s) as [|e es].
    + unfold final_zero. cbn [last length]. lia.
    + destruct (final_zero _); cbn [length]; lia.
  - intros k e Hk Hzero. by destruct (Hstop k e Hk Hzero).
Qed.

End PocketCount.

(** ** Concrete runs *)

(** After any completed pass of any sequence of calls on a new classifier,
    reading [self.pocket.best_weights] gives the current weights. *)
Lemma best_weights_are_weights {A : Arith} {L : Type} `{Countable L}
    d (class_labels : L * L) (calls : list call) e :
  e ∈ session_events calls (init (A := A) d class_labels) →
  ev_best_weights e = ev_weights e.
Proof.
  intros Hin. unfold ev_best_weights, ev_weights.
  by rewrite (session_shared calls _ e (init_shared d class_labels) Hin).
Qed.

(** C1 does not hold of the code.  [PocketClassifier(1, (-1, 1))] trained by
    [train([[1.0], [2.0]], [-1, 1], 2)] completes two passes with one
    misclassification each.  The comparison of the first pass assigns the
    pocket while the weights are [[-2, -4]]; the comparison of the second
    pass does not assign it, and yet [best_weights] then reads [[0, -2]],
    because the assignment stored the array of [self.weights] itself and the
    updates of the second pass wrote to that array. *)
Theorem pocket_follows_later_updates :
  map (fun e => (ev_misclassifies e, ev_replaced e, ev_pocket_count e, ev_best_weights e))
    (train_events (A := binary64) Samples.line Samples.line_labels 2 (Samples.classifier 1))
  = [(1, true, 1, [-2; -4]%float); (1, false, 1, [0; -2]%float)].
Proof. vm_compute. reflexivity. Qed.

(** C5, as stated, fails twice.  The samples [narrow] are separated by a
    boundary through the origin, and ten passes all misclassify.  The samples
    [corner] are separated too, and the second pass classifies them all, but
    [classify], which adds [weights[0]], then returns the label 1 for the
    third sample, whose label is -1. *)
Lemma separable_data_not_learned :
  (separates (A := binary64) 0%float [0; -1]%float Samples.narrow Samples.narrow_codes
   ∧ getitems (_reversed_label_map (self (Samples.classifier 2))) Samples.narrow_labels
       = Ok Samples.narrow_codes
   ∧ map ev_misclassifies
       (train_events (A := binary64) Samples.narrow Samples.narrow_labels 10
          (Samples.classifier 2))
     = [2; 2; 2; 2; 2; 2; 2; 2; 2; 1])
  ∧ (separates (A := binary64) 0%float [-1; -1; 0]%float Samples.corner
       Samples.corner_codes
     ∧ getitems (_reversed_label_map (self (Samples.classifier 3))) Samples.corner_labels
         = Ok Samples.corner_codes
     ∧ map ev_misclassifies
         (train_events (A := binary64) Samples.corner Samples.corner_labels 10
            (Samples.classifier 3))
       = [2; 0]
     ∧ Samples.corner_labels = [1; 1; -1]
     ∧ (classify (A := binary64) Samples.corner
          (train (A := binary64) Samples.corner Samples.corner_labels 10
             (Samples.classifier 3)).1).2
       = Ok [1; 1; 1]).
Proof.
  split.
  - split; [|split; vm_compute; reflexivity].
    unfold separates. repeat (constructor; [split; vm_compute; reflexivity|]).
    constructor.
  - split; [|repeat split; vm_compute; reflexivity].
    unfold separates. repeat (constructor; [split; vm_compute; reflexivity|]).
    constructor.
Qed.

(** The passes of the docstring example: the fourth pass classifies all
    twelve samples, the record holds the pocket's count of the three passes
    before, and [classify] then returns the labels of the training samples. *)
Lemma docstring_training :
  map (fun e => (ev_misclassifies e, ev_pocket_count e))
    (train_events (A := binary64) Docstring.samples Docstring.labels 10
       Docstring.classifier)
  = [(1, 1); (3, 1); (1, 1); (0, 0)]
  ∧ misclassify_record
      (self (train (A := binary64) Docstring.samples Docstring.labels 10
               Docstring.classifier).1)
    = [1; 1; 1]
  ∧ (classify (A := binary64) Docstring.samples
       (train (A := binary64) Docstring.samples Docstring.labels 10
          Docstring.classifier).1).2
    = Ok Docstring.labels.
Proof. repeat split; vm_compute; reflexivity. Qed.

(** C6. [PocketClassifier(4, (-1, 1))] trained by [train(samples, labels, 10)]
    on the twelve samples of the docstring classifies
    [[[6.3, 3.3, 4.7, 1.6], [4.6, 3.4, 1.4, 0.3]]] as [[1, -1]]: in binary64
    arithmetic with the products summed from the left, and also when the
    attributes are read as exact decimal fractions. *)
Theorem docstring_classification :
  ((train (A := binary64) Docstring.samples Docstring.labels 10
      Docstring.classifier).2 = Ok tt
   ∧ (classify (A := binary64) Docstring.new_data
        (train (A := binary64) Docstring.samples Docstring.labels 10
           Docstring.classifier).1).2
     = Ok [1; -1])
  ∧ ((train (A := rational) Docstring.samples_exact Docstring.labels 10
        Docstring.classifier_exact).2 = Ok tt
     ∧ (classify (A := rational) Docstring.new_data_exact
          (train (A := rational) Docstring.samples_exact Docstring.labels 10
             Docstring.classifier_exact).1).2
       = Ok [1; -1]).
Proof. repeat split; vm_compute; reflexivity. Qed.

(** * Further properties of the module *)

(** ** What [train] writes to *)

Section Writes.
Context {A : Arith} {I : Inner A} {L : Type} `{Countable L}.

Local Abbreviation state := (@state A L _ _).
Local Abbreviation pass_event := (@pass_event A L _ _).
Local Abbreviation call := (@call A L).

Implicit Types (s : state) (e : pass_event) (m : Z) (es : list pass_event).

(** The array of [self.weights] keeps its length through a sample, whether
    the sample is accepted or raises. *)
Lemma train_sample_length sample target s :
  length (deref (train_sample sample target s).1 (weights (self s)))
  = length (deref s (weights (self s))).
Proof.
  unfold train_sample, _linear_combination, iadd_weights_tail, iadd_weights_head.
  unfold_monad. cbn beta iota.
  destruct (np_inner sample _) as [lc|err]; cbn beta iota; [|done].
  rewrite length_map. case_decide as Hlen; cbn beta iota; [|done].
  cbn [self weights heap]. rewrite deref_insert.
  assert (length (take 1 (deref s (weights (self s)))
                  ++ zip_with add (drop 1 (deref s (weights (self s))))
                       (map (mul (of_int (target - np_where lc))) sample))
          = length (deref s (weights (self s)))) as Hsame.
  { rewrite length_app, length_zip_with_l_eq by (by rewrite length_map).
    rewrite <- length_app. by rewrite take_drop. }
  destruct (take 1 _ ++ _) as [|w0 ws] eqn:Ew; cbn beta iota.
  - cbn [fst]. by rewrite deref_insert.
  - cbn [fst heap self]. by rewrite deref_insert.
Qed.

Lemma train_samples_length pairs m s :
  length (deref (train_samples pairs m s).1 (weights (self s)))
  = length (deref s (weights (self s))).
Proof.
  revert m s. induction pairs as [|[sample target] rest IH]; intros m s; [done|].
  cbn [train_samples]. unfold bind.
  pose proof (train_sample_self sample target s) as Hself.
  pose proof (train_sample_length sample target s) as Hlen.
  destruct (train_sample sample target s) as [s1 [r|err]]; cbn [fst] in *; [|done].
  rewrite <- Hlen, <- Hself. apply IH.
Qed.

(** The state a pass hands to the pocket comparison, and the state the next
    pass starts from, differ from the state of the pass in fields only. *)
Lemma deref_update_pocket m s l : deref (update_pocket m s).1 l = deref s l.
Proof. unfold deref. by rewrite update_pocket_heap. Qed.

Lemma deref_append_record s l : deref (append_record s).1 l = deref s l.
Proof. done. Qed.

Lemma for_range_heap n samples codes s l :
  l ≠ weights (self s) →
  heap (for_range n (train_iteration samples codes) s).1 !! l = heap s !! l.
Proof.
  revert s. induction n as [|n IH]; intros s Hl; [done|].
  rewrite for_range_step.
  pose proof (train_pass_self samples codes s) as Hself.
  pose proof (train_samples_heap (zip samples codes) 0 s l Hl) as Hheap.
  fold (train_pass samples codes s) in Hheap.
  destruct (train_pass samples codes s) as [s1 [m|err]]; cbn [fst] in *; [|done].
  destruct (m =? 0); cbn [fst].
  - by rewrite update_pocket_heap.
  - rewrite IH.
    + destruct (append_record_fields (update_pocket m s1).1) as (-> & _).
      by rewrite update_pocket_heap.
    + destruct (append_record_fields (update_pocket m s1).1) as (_ & _ & -> & _).
      destruct (update_pocket_fields m s1) as (-> & _). by rewrite Hself.
Qed.

Lemma for_range_length n samples codes s :
  length (deref (for_range n (train_iteration samples codes) s).1 (weights (self s)))
  = length (deref s (weights (self s))).
Proof.
  revert s. induction n as [|n IH]; intros s; [done|].
  rewrite for_range_step.
  pose proof (train_pass_self samples codes s) as Hself.
  pose proof (train_samples_length (zip samples codes) 0 s) as Hlen.
  fold (train_pass samples codes s) in Hlen.
  destruct (train_pass samples codes s) as [s1 [m|err]]; cbn [fst] in *; [|done].
  assert (weights (self (append_record (update_pocket m s1).1).1) = weights (self s))
    as Hw.
  { destruct (append_record_fields (update_pocket m s1).1) as (_ & _ & -> & _).
    destruct (update_pocket_fields m s1) as (-> & _). by rewrite Hself. }
  destruct (m =? 0); cbn [fst].
  - by rewrite deref_update_pocket.
  - rewrite <- Hw, IH, Hw. by rewrite deref_append_record, deref_update_pocket.
Qed.

Lemma train_heap samples labels max_iterator s l :
  l ≠ weights (self s) →
  heap (train samples labels max_iterator s).1 !! l = heap s !! l.
Proof.
  rewrite train_unfold. destruct (getitems _ labels); [apply for_range_heap|done].
Qed.

Lemma train_length samples labels max_iterator s :
  length (deref (train samples labels max_iterator s).1 (weights (self s)))
  = length (deref s (weights (self s))).
Proof.
  rewrite train_unfold. destruct (getitems _ labels); [apply for_range_length|done].
Qed.

(** [train] never rebinds [self.weights] or the two label maps, writes to no
    array but the one of [self.weights], and leaves that array its length;
    this holds of every call, those that raise included. *)
Theorem train_writes_weights_only s samples labels max_iterator :
  let s' := (train samples labels max_iterator s).1 in
  weights (self s') = weights (self s)
  ∧ _label_map (self s') = _label_map (self s)
  ∧ _reversed_label_map (self s') = _reversed_label_map (self s)
  ∧ (∀ l, l ≠ weights (self s) → heap s' !! l = heap s !! l)
  ∧ length (deref s' (weights (self s'))) = length (deref s (weights (self s))).
Proof.
  cbn zeta.
  destruct (train_fields samples labels max_iterator s) as (Hw & Hl & Hr).
  split; [done|]. split; [done|]. split; [done|]. rewrite Hw.
  split; [intros l; apply train_heap|apply train_length].
Qed.

End Writes.

(** ** Which calls of [train] return and which raise *)

Section Outcome.
Context {A : Arith} {I : Inner A} {L : Type} `{Countable L}.

Local Abbreviation state := (@state A L _ _).
Local Abbreviation pass_event := (@pass_event A L _ _).

Implicit Types (s : state) (e : pass_event) (m : Z) (es : list pass_event)
  (class_labels : L * L).

Lemma train_sample_accepts sample target s n :
  length (deref s (weights (self s))) = S n → length sample = n →
  ∃ s' r, train_sample sample target s = (s', Ok r).
Proof.
  intros Hw Hsample.
  unfold train_sample, _linear_combination, iadd_weights_tail, iadd_weights_head, np_inner.
  unfold_monad. cbn beta iota.
  destruct (deref s (weights (self s))) as [|w0 ws] eqn:Ew; [done|].
  injection Hw as Hws.
  change (drop 1 (w0 :: ws)) with ws. change (take 1 (w0 :: ws)) with [w0].
  rewrite decide_True by lia. cbn beta iota.
  rewrite length_map, decide_True by lia. cbn beta iota.
  cbn [self weights heap]. rewrite deref_insert. cbn [app]. eauto.
Qed.

Lemma train_sample_rejects sample target s n :
  length (deref s (weights (self s))) = S n → length sample ≠ n →
  train_sample sample target s = (s, Raise ValueError).
Proof.
  intros Hw Hsample.
  unfold train_sample, _linear_combination, np_inner. unfold_monad. cbn beta iota.
  rewrite decide_False; [done|]. rewrite length_drop. lia.
Qed.

Lemma train_samples_accepts pairs m s n :
  length (deref s (weights (self s))) = S n →
  Forall (fun p => length p.1 = n) pairs →
  ∃ s' m', train_samples pairs m s = (s', Ok m').
Proof.
  intros Hw Hall. revert m s Hw.
  induction Hall as [|[sample target] rest Hp _ IH]; intros m s Hw.
  - by exists s, m.
  - cbn [train_samples]. unfold bind.
    pose proof (train_sample_self sample target s) as Hself.
    pose proof (train_sample_length sample target s) as Hlen.
    destruct (train_sample_accepts sample target s n Hw Hp) as (s1 & r & Es).
    rewrite Es in *. cbn [fst] in *. apply IH. rewrite Hself. by rewrite Hlen.
Qed.

Lemma train_samples_rejects pairs m s n :
  length (deref s (weights (self s))) = S n →
  Exists (fun p => length p.1 ≠ n) pairs →
  ∃ s', train_samples pairs m s = (s', Raise ValueError).
Proof.
  revert m s. induction pairs as [|[sample target] rest IH]; intros m s Hw Hex;
    [by inversion Hex|].
  cbn [train_samples]. unfold bind.
  destruct (decide (length sample = n)) as [Hp|Hp].
  - pose proof (train_sample_self sample target s) as Hself.
    pose proof (train_sample_length sample target s) as Hlen.
    destruct (train_sample_accepts sample target s n Hw Hp) as (s1 & r & Es).
    rewrite Es in *. cbn [fst] in *. apply IH.
    + rewrite Hself. by rewrite Hlen.
    + by inversion Hex.
  - rewrite (train_sample_rejects sample target s n Hw Hp). by exists s.
Qed.

Lemma for_range_returns k samples codes s n :
  length (deref s (weights (self s))) = S n →
  Forall (fun p => length p.1 = n) (zip samples codes) →
  (for_range k (train_iteration samples codes) s).2 = Ok tt.
Proof.
  intros Hw Hall. revert s Hw. induction k as [|k IH]; intros s Hw; [done|].
  rewrite for_range_step.
  pose proof (train_pass_self samples codes s) as Hself.
  pose proof (train_samples_length (zip samples codes) 0 s) as Hlen.
  fold (train_pass samples codes s) in Hlen.
  destruct (train_samples_accepts (zip samples codes) 0 s n Hw Hall) as (s1 & m & Ep).
  fold (train_pass samples codes s) in Ep. rewrite Ep in *. cbn [fst] in *.
  destruct (m =? 0); [done|]. apply IH.
  destruct (append_record_fields (update_pocket m s1).1) as (_ & _ & -> & _).
  destruct (update_pocket_fields m s1) as (-> & _).
  rewrite deref_append_record, deref_update_pocket, Hself. by rewrite Hlen.
Qed.

Lemma getitems_length {K V} `{Countable K} (d : gmap K V) (ks : list K) (vs : list V) :
  getitems d ks = Ok vs → length vs = length ks.
Proof.
  revert vs. induction ks as [|k ks IH]; intros vs; cbn [getitems].
  - by intros [= <-].
  - destruct (getitem d k); [|done]. destruct (getitems d ks); [|done].
    intros [= <-]. cbn [length]. f_equal. by apply IH.
Qed.

Lemma Exists_zip_take {X Y} (P : X → Prop) (xs : list X) (ys : list Y) :
  Exists P (take (length ys) xs) → Exists (fun p => P p.1) (zip xs ys).
Proof.
  revert ys. induction xs as [|x xs IH]; intros [|y ys]; cbn [length take zip_with];
    try (by intros ?%Exists_nil).
  intros [Hx|Hxs]%Exists_cons; [by left|right; by apply IH].
Qed.

(** [train] returns normally when every label is a class label and every
    sample has as many attributes as [self.weights[1:]] has entries. *)
Theorem train_returns s samples labels max_iterator class_labels d :
  _reversed_label_map (self s) = reversed_label_map_of class_labels →
  Forall (fun l => l = class_labels.1 ∨ l = class_labels.2) labels →
  length (deref s (weights (self s))) = S d →
  Forall (fun sample => length sample = d) samples →
  (train samples labels max_iterator s).2 = Ok tt.
Proof.
  intros Hmap Hlabels Hw Hsamples.
  destruct (translate_class_labels _ _ Hlabels) as [codes Hcodes].
  rewrite train_unfold, Hmap, Hcodes.
  apply (for_range_returns _ _ _ _ d Hw).
  apply Forall_forall. intros [sample target] Hin.
  apply elem_of_zip_l in Hin. rewrite Forall_forall in Hsamples. by apply Hsamples.
Qed.

(** A sample with another number of attributes, among those that have a
    label, makes [train] raise [ValueError] in its first pass.  No pass
    completes and no field of the objects changes, so the pocket and the
    record are as before; the weights keep the updates of the samples that
    came first. *)
Theorem train_rejects_sample s samples labels max_iterator class_labels d :
  _reversed_label_map (self s) = reversed_label_map_of class_labels →
  Forall (fun l => l = class_labels.1 ∨ l = class_labels.2) labels →
  length (deref s (weights (self s))) = S d →
  Exists (fun sample => length sample ≠ d) (take (length labels) samples) →
  1 ≤ max_iterator →
  (train samples labels max_iterator s).2 = Raise ValueError
  ∧ train_events samples labels max_iterator s = []
  ∧ self (train samples labels max_iterator s).1 = self s.
Proof.
  intros Hmap Hlabels Hw Hbad Hmax.
  destruct (translate_class_labels _ _ Hlabels) as [codes Hcodes].
  rewrite train_unfold. unfold train_events. rewrite Hmap, Hcodes.
  destruct (Z.to_nat max_iterator) as [|k] eqn:Ek; [lia|].
  rewrite for_range_step. cbn [train_passes].
  pose proof (train_pass_self samples codes s) as Hself.
  assert (Exists (fun p : list num * Z => length p.1 ≠ d) (zip samples codes)) as Hzip.
  { rewrite <- (getitems_length _ _ _ Hcodes) in Hbad.
    by apply (Exists_zip_take (fun sample => length sample ≠ d)). }
  destruct (train_samples_rejects (zip samples codes) 0 s d Hw Hzip) as (s1 & Ep).
  fold (train_pass samples codes s) in Ep. rewrite Ep in *. done.
Qed.

End Outcome.

(** ** How many passes, and how many misclassifications *)

Section Passes.
Context {A : Arith} {I : Inner A} {L : Type} `{Countable L}.

Local Abbreviation state := (@state A L _ _).
Local Abbreviation pass_event := (@pass_event A L _ _).

Implicit Types (s : state) (e : pass_event) (m : Z) (es : list pass_event).

Lemma final_zero_cons e es : es ≠ [] → final_zero (e :: es) = final_zero es.
Proof. destruct es as [|e' es]; [done|]. intros _. unfold final_zero. by rewrite last_cons_cons. Qed.

Lemma for_range_all_passes n samples codes s :
  (for_range n (train_iteration samples codes) s).2 = Ok tt →
  length (train_passes n samples codes s) = n
  ∨ final_zero (train_passes n samples codes s) = true.
Proof.
  revert s. induction n as [|n IH]; intros s; [by left|].
  rewrite for_range_step. cbn [train_passes].
  destruct (train_pass samples codes s) as [s1 [m|err]]; [|done].
  destruct (Z.eqb_spec m 0) as [Hm|Hm].
  - intros _. right. unfold final_zero. cbn [last ev_misclassifies]. by apply Z.eqb_eq.
  - intros [Hlen|Hzero]%IH.
    + left. cbn [length]. by rewrite Hlen.
    + right. rewrite final_zero_cons; [done|]. by intros Hnil; rewrite Hnil in Hzero.
Qed.

(** A call of [train] completes at most [max_iterator] passes, and a call
    that returns normally completed exactly [max_iterator] passes (none when
    [max_iterator] is negative) unless its last pass had no
    misclassification. *)
Theorem train_pass_count s samples labels max_iterator :
  let es := train_events samples labels max_iterator s in
  (length es ≤ Z.to_nat max_iterator)%nat
  ∧ ((train samples labels max_iterator s).2 = Ok tt →
       length es = Z.to_nat max_iterator ∨ final_zero es = true).
Proof.
  cbn zeta. rewrite train_unfold. unfold train_events.
  destruct (getitems _ labels) as [codes|].
  - split; [apply train_passes_length|apply for_range_all_passes].
  - split; [cbn [length]; lia|done].
Qed.

(** The count of a completed pass is at least 0 and at most the number of
    samples that have a label. *)
Theorem pass_count_bounds s samples labels max_iterator e :
  e ∈ train_events samples labels max_iterator s →
  0 ≤ ev_misclassifies e ≤ Z.of_nat (length samples `min` length labels).
Proof.
  unfold train_events.
  destruct (getitems _ labels) as [codes|] eqn:Hcodes; [|by intros ?%elem_of_nil].
  intros (s0 & Hpass & _)%train_passes_event.
  apply train_samples_bounds in Hpass.
  pose proof (length_zip_with pair samples codes) as Hzip.
  rewrite (getitems_length _ _ _ Hcodes) in Hzip. lia.
Qed.

(** [zip] stops at the shorter list: the samples beyond the number of labels
    are never read, and [train] behaves as on the samples without them. *)
Theorem train_ignores_surplus_samples s samples labels max_iterator :
  train samples labels max_iterator s
  = train (take (length labels) samples) labels max_iterator s
  ∧ train_events samples labels max_iterator s
    = train_events (take (length labels) samples) labels max_iterator s.
Proof.
  rewrite !train_unfold. unfold train_events.
  destruct (getitems _ labels) as [codes|] eqn:Hcodes; [|done].
  assert (zip (take (length labels) samples) codes = zip samples codes) as Hzip.
  { rewrite <- (getitems_length _ _ _ Hcodes). apply zip_with_take_l. }
  clear Hcodes. split.
  - unfold train_iteration, train_pass. by rewrite Hzip.
  - generalize (Z.to_nat max_iterator). intros n. revert s.
    induction n as [|n IH]; intros s; [done|].
    cbn [train_passes]. unfold train_pass. rewrite Hzip.
    destruct (train_samples (zip samples codes) 0 s) as [s1 [m|err]]; [|done].
    destruct (m =? 0); [done|]. f_equal. apply IH.
Qed.

End Passes.

(** ** A classifier over its life *)

Section Life.
Context {A : Arith} {I : Inner A} {L : Type} `{Countable L}.

Local Abbreviation state := (@state A L _ _).
Local Abbreviation pass_event := (@pass_event A L _ _).
Local Abbreviation call := (@call A L).

Implicit Types (s : state) (e : pass_event) (m : Z) (es : list pass_event)
  (seen : list Z).

Lemma session_weights calls s :
  weights (self (session calls s)) = weights (self s).
Proof.
  revert s. induction calls as [|c rest IH]; intros s; [done|].
  cbn [session]. rewrite IH. by destruct (train_fields (call_samples c) (call_labels c)
                                             (call_max_iterator c) s) as (-> & _).
Qed.

Lemma session_heap calls s l :
  l ≠ weights (self s) → heap (session calls s) !! l = heap s !! l.
Proof.
  revert s. induction calls as [|c rest IH]; intros s Hl; [done|].
  cbn [session].
  destruct (train_fields (call_samples c) (call_labels c) (call_max_iterator c) s)
    as (Hw & _).
  rewrite IH by (by rewrite Hw). by apply train_heap.
Qed.

Lemma session_length calls s :
  length (deref (session calls s) (weights (self s)))
  = length (deref s (weights (self s))).
Proof.
  revert s. induction calls as [|c rest IH]; intros s; [done|].
  cbn [session].
  destruct (train_fields (call_samples c) (call_labels c) (call_max_iterator c) s)
    as (Hw & _).
  rewrite <- Hw, IH, Hw. apply train_length.
Qed.

Lemma session_label_maps calls s :
  _label_map (self (session calls s)) = _label_map (self s)
  ∧ _reversed_label_map (self (session calls s)) = _reversed_label_map (self s).
Proof.
  revert s. induction calls as [|c rest IH]; intros s; [done|].
  cbn [session]. destruct (IH (train (call_samples c) (call_labels c)
                                 (call_max_iterator c) s).1) as [-> ->].
  by destruct (train_fields (call_samples c) (call_labels c)
                 (call_max_iterator c) s) as (_ & -> & ->).
Qed.

Lemma session_pocket calls s :
  pocket (self (session calls s)) =
    from_option (fun e => pocket (self (ev_compared e))) (pocket (self s))
      (last (session_events calls s)).
Proof.
  revert s. induction calls as [|c rest IH]; intros s; [done|].
  cbn [session session_events]. rewrite IH, train_pocket, last_app.
  by destruct (last (session_events rest _)).
Qed.

Lemma session_events_weights calls s e :
  e ∈ session_events calls s → weights (self (ev_compared e)) = weights (self s).
Proof.
  revert s. induction calls as [|c rest IH]; intros s; [by intros ?%elem_of_nil|].
  cbn [session_events]. intros [Hin|Hin]%elem_of_app.
  - by eapply train_events_weights.
  - rewrite (IH _ Hin).
    by destruct (train_fields (call_samples c) (call_labels c)
                   (call_max_iterator c) s) as (-> & _).
Qed.

(** Until a pass completes, the pocket of a new classifier keeps the
    sentinel and its own array of zeros, whatever the calls wrote to the
    weights; from the first completed pass on, [self.pocket.best_weights]
    and [self.weights] are one and the same array. *)
Theorem pocket_array d (class_labels : L * L) (calls : list call) :
  let s0 := init d class_labels in
  let s' := session calls s0 in
  (session_events calls s0 = [] →
     misclassify_count (pocket (self s')) = -1
     ∧ best_weights (pocket (self s')) ≠ weights (self s')
     ∧ deref s' (best_weights (pocket (self s'))) = np_zeros (d + 1))
  ∧ (session_events calls s0 ≠ [] →
     best_weights (pocket (self s')) = weights (self s')).
Proof.
  cbn zeta. pose proof (session_pocket calls (init d class_labels)) as Hp.
  pose proof (session_weights calls (init d class_labels)) as Hw.
  pose proof (init_distinct d class_labels) as Hne.
  split.
  - intros Hnil. rewrite Hnil in Hp. cbn [last from_option] in Hp.
    rewrite Hp, Hw. split; [done|]. split; [done|].
    rewrite <- (init_best_weights d class_labels).
    unfold deref. by rewrite session_heap.
  - intros Hsome.
    destruct (last (session_events calls (init d class_labels))) as [e|] eqn:El;
      [|by apply last_None in El].
    rewrite Hp, Hw. cbn [from_option].
    apply last_Some_elem_of in El.
    rewrite (session_shared calls _ e (init_shared d class_labels) El).
    by apply (session_events_weights calls).
Qed.

(** Whatever calls of [train] a classifier has been through, those that
    raised included, its weights are an array of [d + 1] entries and its label
    maps are those of its construction.  So [classify] returns a label for
    each sample of any batch, not empty, of samples with [d] attributes, and
    [train] returns normally on samples with [d] attributes and class
    labels. *)
Theorem classifier_stays_usable d (class_labels : L * L) (calls : list call)
    (new_data samples : list (list num)) (labels : list L) max_iterator :
  new_data ≠ [] →
  Forall (fun sample => length sample = d) new_data →
  Forall (fun sample => length sample = d) samples →
  Forall (fun l => l = class_labels.1 ∨ l = class_labels.2) labels →
  let s := session calls (init d class_labels) in
  length (deref s (weights (self s))) = S d
  ∧ _label_map (self s) = label_map_of class_labels
  ∧ _reversed_label_map (self s) = reversed_label_map_of class_labels
  ∧ (∃ predicted, classify new_data s = (s, Ok predicted)
                  ∧ length predicted = length new_data)
  ∧ (train samples labels max_iterator s).2 = Ok tt.
Proof.
  intros Hne Hdata Hsamples Hlabels. cbn zeta.
  pose proof (session_length calls (init d class_labels)) as Hlen.
  rewrite <- (session_weights calls (init d class_labels)) in Hlen at 1.
  rewrite init_weights in Hlen. unfold np_zeros in Hlen.
  rewrite length_replicate, Nat.add_1_r in Hlen.
  destruct (session_label_maps calls (init d class_labels)) as [Hl Hr].
  destruct (init_self (A := A) d class_labels) as (_ & _ & Hl0 & Hr0).
  rewrite Hl0 in Hl. rewrite Hr0 in Hr.
  split; [done|]. split; [done|]. split; [done|]. split.
  - destruct (deref (session calls (init d class_labels)) _) as [|w0 ws] eqn:Ew;
      [done|].
    injection Hlen as Hws.
    destruct (label_map_of_lookup class_labels) as [H1 H2].
    eexists. split.
    + apply (classify_rows _ new_data w0 ws class_labels.1 class_labels.2);
        rewrite ?Hl, ?Hws; done.
    + by rewrite length_map, length_seq.
  - destruct (translate_class_labels _ _ Hlabels) as [codes Hcodes].
    rewrite train_unfold, Hr, Hcodes.
    apply (for_range_returns _ _ _ _ d Hlen).
    apply Forall_forall. intros [sample target] Hin.
    apply elem_of_zip_l in Hin. rewrite Forall_forall in Hsamples. by apply Hsamples.
Qed.

(** *** The record *)

Lemma train_record samples labels max_iterator s :
  misclassify_record (self (train samples labels max_iterator s).1) =
    misclassify_record (self s)
    ++ appended_entries (train_events samples labels max_iterator s).
Proof.
  rewrite train_unfold. unfold train_events.
  destruct (getitems _ labels) as [codes|]; [apply for_range_record|].
  by rewrite app_nil_r.
Qed.

Lemma appended_entries_app es1 es2 :
  appended_entries (es1 ++ es2) = appended_entries es1 ++ appended_entries es2.
Proof. unfold appended_entries. by rewrite filter_app, map_app. Qed.

Lemma session_record calls s :
  misclassify_record (self (session calls s)) =
    misclassify_record (self s) ++ appended_entries (session_events calls s).
Proof.
  revert s. induction calls as [|c rest IH]; intros s.
  - cbn [session session_events]. by rewrite app_nil_r.
  - cbn [session session_events].
    by rewrite IH, train_record, appended_entries_app, app_assoc.
Qed.

Lemma pocket_tracks_entries seen es :
  Forall (fun y => 0 ≤ y) seen → pocket_tracks seen es →
  (∀ x, minimum seen = Some x → Forall (fun c => c ≤ x) (appended_entries es))
  ∧ Forall (fun c => 0 ≤ c) (appended_entries es)
  ∧ StronglySorted (fun a b => b ≤ a) (appended_entries es).
Proof.
  revert seen. induction es as [|e es IH]; intros seen Hseen.
  - intros _. unfold appended_entries. cbn. repeat split; constructor.
  - cbn [pocket_tracks]. intros (Hm & Hc & Hes).
    assert (Forall (fun y => 0 ≤ y) (seen ++ [ev_misclassifies e])) as Hseen'
      by (apply Forall_app; split; [done|by constructor]).
    destruct (IH _ Hseen' Hes) as (Hbound & Hnonneg & Hsorted).
    symmetry in Hc. specialize (Hbound _ Hc).
    pose proof (minimum_nonneg _ _ Hseen' Hc) as Hc0.
    assert (∀ x, minimum seen = Some x → ev_pocket_count e ≤ x) as Hle.
    { intros x Hx. rewrite minimum_snoc, Hx in Hc. cbn [from_option] in Hc.
      injection Hc as <-. lia. }
    unfold appended_entries in *.
    destruct (decide (ev_misclassifies e ≠ 0)) as [Hnz|Hz].
    + rewrite filter_cons_True by done. cbn [map].
      split; [|split].
      * intros x Hx. constructor; [by apply Hle|].
        eapply Forall_impl; [exact Hbound|]. intros c Hcx. cbn beta in Hcx.
        specialize (Hle x Hx). lia.
      * by constructor.
      * by constructor.
    + rewrite filter_cons_False by done.
      split; [|done].
      intros x Hx. eapply Forall_impl; [exact Hbound|]. intros c Hcx. cbn beta in Hcx.
      specialize (Hle x Hx). lia.
Qed.

(** Whatever the calls of [train] on a new classifier, its record never
    increases from one entry to the next, and no entry is negative; the
    sentinel -1 is never recorded. *)
Theorem record_never_increases d (class_labels : L * L) (calls : list call) :
  let record := misclassify_record (self (session calls (init d class_labels))) in
  StronglySorted (fun a b => b ≤ a) record
  ∧ Forall (fun c => 0 ≤ c) record.
Proof.
  cbn zeta. rewrite session_record. cbn [app].
  destruct (session_tracks calls _ [] (init_tracked d class_labels)) as [Hes _].
  destruct (pocket_tracks_entries [] _ (Forall_nil_2 _) Hes) as (_ & Hnonneg & Hsorted).
  done.
Qed.

End Life.

(** ** More on [classify] and on the label maps *)

Section Labels.
Context {A : Arith} {I : Inner A} {L : Type} `{Countable L}.

Local Abbreviation state := (@state A L _ _).

Implicit Types (s : state) (class_labels : L * L).

(** [classify] changes nothing, whether it returns or raises; calling it
    again with the same batch therefore gives the same outcome. *)
Theorem classify_reads_only s (new_data : list (list num)) :
  (classify new_data s).1 = s
  ∧ classify new_data (classify new_data s).1 = classify new_data s.
Proof.
  assert ((classify new_data s).1 = s) as Hs.
  { unfold classify, _linear_combination_rows. unfold_monad. cbn beta iota.
    destruct (np_inner_rows new_data _) as [[x|xs]|err]; cbn beta iota; [| |done].
    - by destruct (deref s (weights (self s))).
    - by destruct (deref s (weights (self s))). }
  split; [done|]. by rewrite Hs.
Qed.

(** [classify] raises [ValueError] on the empty batch of a classifier with
    at least one attribute, and on a batch with a sample whose number of
    attributes is not that of [self.weights[1:]]. *)
Theorem classify_rejects_shape s (new_data : list (list num)) w0 ws :
  deref s (weights (self s)) = w0 :: ws →
  (new_data = [] ∧ ws ≠ []) ∨ Exists (fun sample => length sample ≠ length ws) new_data →
  classify new_data s = (s, Raise ValueError).
Proof.
  intros Hw [[-> Hws]|Hbad].
  - apply classify_empty. rewrite Hw. by destruct ws.
  - unfold classify, _linear_combination_rows, np_inner_rows. unfold_monad.
    cbn beta iota. rewrite Hw. change (drop 1 (w0 :: ws)) with ws.
    destruct new_data as [|r rest]; [by inversion Hbad|].
    destruct (forallb _ (r :: rest)) eqn:Hrect; [|done].
    rewrite decide_False; [done|]. intros Hr.
    apply Exists_exists in Hbad as (x & Hx & Hlen). apply Hlen.
    rewrite forallb_forall in Hrect.
    specialize (Hrect x (proj1 (list_elem_of_In _ _) Hx)).
    apply Nat.eqb_eq in Hrect. lia.
Qed.

(** When [classify] returns, it returns one label for each sample of a batch
    that is not empty, and each of them is one of the two class labels,
    never a code. *)
Theorem classify_returns_class_labels s (new_data : list (list num)) class_labels
    s' (labels : list L) :
  _label_map (self s) = label_map_of class_labels →
  classify new_data s = (s', Ok labels) →
  s' = s
  ∧ new_data ≠ []
  ∧ length labels = length new_data
  ∧ Forall (fun l => l = class_labels.1 ∨ l = class_labels.2) labels.
Proof.
  intros Hmap Hok.
  destruct (label_map_of_lookup class_labels) as [H1 H2].
  assert (∃ w0 ws, deref s (weights (self s)) = w0 :: ws
                   ∧ new_data ≠ []
                   ∧ Forall (fun sample => length sample = length ws) new_data)
    as (w0 & ws & Hw & Hne & Hall).
  { revert Hok. unfold classify, _linear_combination_rows, np_inner_rows. unfold_monad.
    cbn beta iota.
    destruct (deref s (weights (self s))) as [|w0 ws].
    - destruct new_data as [|r rest].
      + by destruct (decide _).
      + destruct (forallb _ (r :: rest)); [|done]. by destruct (decide _).
    - change (drop 1 (w0 :: ws)) with ws. intros Hok. exists w0, ws.
      destruct new_data as [|r rest]; [by destruct (decide _)|].
      destruct (forallb _ (r :: rest)) eqn:Hrect; [|done].
      destruct (decide (length r = length ws)) as [Hr|]; [|done].
      split; [done|]. split; [done|].
      apply Forall_forall. intros x Hx.
      rewrite forallb_forall in Hrect.
      specialize (Hrect x (proj1 (list_elem_of_In _ _) Hx)).
      apply Nat.eqb_eq in Hrect. lia. }
  rewrite (classify_rows s new_data w0 ws class_labels.1 class_labels.2) in Hok
    by (by rewrite ?Hmap).
  injection Hok as <- <-.
  split; [done|]. split; [done|]. split; [by rewrite length_map, length_seq|].
  apply Forall_fmap, Forall_forall. intros x _. cbn. destruct (ge_zero _); auto.
Qed.

(** The dict from codes to labels undoes the dict from labels to codes on
    each class label, and the converse round trip, from the codes 1 and -1,
    holds exactly when the two class labels differ: given twice the same
    label, the second entry of the dict display replaces the first, and the
    label translates to -1. *)
Theorem label_maps_round_trip d class_labels :
  let o := self (init (A := A) d class_labels) in
  (∀ l c, _reversed_label_map o !! l = Some c → _label_map o !! c = Some l)
  ∧ ((∀ c l, _label_map o !! c = Some l → _reversed_label_map o !! l = Some c)
     ↔ class_labels.1 ≠ class_labels.2).
Proof.
  cbn zeta. destruct (init_self (A := A) d class_labels) as (_ & _ & -> & ->).
  destruct (label_map_of_lookup class_labels) as [H1 H2].
  split; [|split].
  - intros l c. rewrite reversed_label_map_of_lookup.
    destruct (decide (l = class_labels.2)) as [->|]; [by intros [= <-]|].
    destruct (decide (l = class_labels.1)) as [->|]; [by intros [= <-]|done].
  - intros Hround Heq. specialize (Hround 1 class_labels.1 H1).
    rewrite reversed_label_map_of_lookup, decide_True in Hround by done. done.
  - intros Hne c l Hc. rewrite reversed_label_map_of_lookup.
    unfold label_map_of in Hc.
    destruct (decide (c = -1)) as [->|Hc1].
    + rewrite lookup_insert_eq in Hc. injection Hc as <-. by rewrite decide_True.
    + rewrite lookup_insert_ne in Hc by done.
      destruct (decide (c = 1)) as [->|Hc2].
      * rewrite lookup_insert_eq in Hc. injection Hc as <-.
        rewrite decide_False by done. by rewrite decide_True.
      * by rewrite lookup_insert_ne in Hc.
Qed.

End Labels.

(** ** The entry 0 of the weights plays no part in training *)

Section Bias.
Context {A : Arith} {I : Inner A} {L : Type} `{Countable L}.

Local Abbreviation state := (@state A L _ _).
Local Abbreviation pass_event := (@pass_event A L _ _).

Implicit Types (s : state) (e : pass_event) (m : Z).

(** A sample, on weights that are not empty and on empty weights. *)
Lemma train_sample_cons sample target s w0 ws :
  deref s (weights (self s)) = w0 :: ws →
  train_sample sample target s =
    if decide (length sample = length ws)
    then
      let update := target - np_where (inner sample ws) in
      let tail := zip_with add ws (map (mul (of_int update)) sample) in
      (mkState (<[weights (self s) := add w0 (of_int update) :: tail]>
                  (<[weights (self s) := w0 :: tail]> (heap s))) (self s),
       Ok (if update =? 0 then 0 else 1))
    else (s, Raise ValueError).
Proof.
  intros Hw.
  unfold train_sample, _linear_combination, iadd_weights_tail, iadd_weights_head, np_inner.
  unfold_monad. cbn beta iota. rewrite Hw.
  change (drop 1 (w0 :: ws)) with ws. change (take 1 (w0 :: ws)) with [w0].
  destruct (decide (length sample = length ws)) as [Hlen|]; [|done].
  cbn beta iota zeta. rewrite length_map, decide_True by done.
  cbn beta iota. cbn [self weights heap]. by rewrite deref_insert.
Qed.

Lemma train_sample_nil sample target s :
  deref s (weights (self s)) = [] →
  train_sample sample target s =
    if decide (length sample = 0%nat)
    then (mkState (<[weights (self s) := []]> (heap s)) (self s), Raise IndexError)
    else (s, Raise ValueError).
Proof.
  intros Hw.
  unfold train_sample, _linear_combination, iadd_weights_tail, iadd_weights_head, np_inner.
  unfold_monad. cbn beta iota. rewrite Hw. cbn [drop take length].
  destruct (decide (length sample = 0%nat)) as [Hlen|]; [|done].
  cbn beta iota. rewrite length_map, decide_True by done.
  cbn beta iota. cbn [self weights heap]. by rewrite deref_insert.
Qed.

Lemma train_sample_bias sample target s1 s2 :
  same_but_bias s1 s2 →
  same_but_bias (train_sample sample target s1).1 (train_sample sample target s2).1
  ∧ (train_sample sample target s1).2 = (train_sample sample target s2).2.
Proof.
  intros (Hself & Hheap & Hlen & Htail).
  destruct (deref s1 (weights (self s1))) as [|a1 t1] eqn:E1;
    destruct (deref s2 (weights (self s2))) as [|a2 t2] eqn:E2; try done.
  - rewrite (train_sample_nil _ _ _ E1), (train_sample_nil _ _ _ E2).
    destruct (decide (length sample = 0%nat)); cbn [fst snd].
    + split; [|done]. unfold same_but_bias. cbn [self heap].
      rewrite <- Hself, !deref_insert. split; [done|]. split; [|done].
      intros l Hl. rewrite !lookup_insert_ne by done. by apply Hheap.
    + split; [|done]. unfold same_but_bias. by rewrite E1, E2.
  - change (drop 1 (a1 :: t1)) with t1 in Htail.
    change (drop 1 (a2 :: t2)) with t2 in Htail. subst t2.
    rewrite (train_sample_cons _ _ _ _ _ E1), (train_sample_cons _ _ _ _ _ E2).
    destruct (decide (length sample = length t1)); cbn [fst snd].
    + split; [|done]. unfold same_but_bias. cbn [self heap].
      rewrite <- Hself, !deref_insert. split; [done|]. split; [|done].
      intros l Hl. rewrite !lookup_insert_ne by done. by apply Hheap.
    + split; [|done]. unfold same_but_bias. by rewrite E1, E2.
Qed.

Lemma train_samples_bias pairs m s1 s2 :
  same_but_bias s1 s2 →
  same_but_bias (train_samples pairs m s1).1 (train_samples pairs m s2).1
  ∧ (train_samples pairs m s1).2 = (train_samples pairs m s2).2.
Proof.
  revert m s1 s2. induction pairs as [|[sample target] rest IH]; intros m s1 s2 Hs;
    [done|].
  cbn [train_samples]. unfold bind.
  destruct (train_sample_bias sample target s1 s2 Hs) as [Hs' Hr].
  destruct (train_sample sample target s1) as [s1' [r1|err1]];
    destruct (train_sample sample target s2) as [s2' [r2|err2]];
    cbn [fst snd] in *; try done.
  injection Hr as <-. by apply IH.
Qed.

Lemma update_pocket_bias m s1 s2 :
  same_but_bias s1 s2 → same_but_bias (update_pocket m s1).1 (update_pocket m s2).1.
Proof.
  intros (Hself & Hheap & Hlen & Htail).
  assert (self (update_pocket m s1).1 = self (update_pocket m s2).1) as Hself'.
  { unfold update_pocket. unfold_monad. cbn beta iota. rewrite Hself.
    destruct (_ || _); cbn [fst self]; by rewrite ?Hself. }
  unfold same_but_bias. rewrite !deref_update_pocket, !update_pocket_heap.
  destruct (update_pocket_fields m s1) as (-> & _).
  destruct (update_pocket_fields m s2) as (-> & _).
  done.
Qed.

Lemma append_record_bias s1 s2 :
  same_but_bias s1 s2 → same_but_bias (append_record s1).1 (append_record s2).1.
Proof.
  intros (Hself & Hheap & Hlen & Htail).
  unfold same_but_bias, append_record, deref in *. unfold_monad. cbn beta iota.
  cbn [fst self heap weights] in *. by rewrite Hself in *.
Qed.

Lemma for_range_bias n samples codes s1 s2 :
  same_but_bias s1 s2 →
  same_but_bias (for_range n (train_iteration samples codes) s1).1
    (for_range n (train_iteration samples codes) s2).1
  ∧ (for_range n (train_iteration samples codes) s1).2
    = (for_range n (train_iteration samples codes) s2).2
  ∧ map ev_misclassifies (train_passes n samples codes s1)
    = map ev_misclassifies (train_passes n samples codes s2).
Proof.
  revert s1 s2. induction n as [|n IH]; intros s1 s2 Hs; [done|].
  rewrite !for_range_step. cbn [train_passes].
  destruct (train_samples_bias (zip samples codes) 0 s1 s2 Hs) as [Hs' Hr].
  fold (train_pass samples codes s1) in Hs', Hr.
  fold (train_pass samples codes s2) in Hs', Hr.
  destruct (train_pass samples codes s1) as [s1' [m1|err1]];
    destruct (train_pass samples codes s2) as [s2' [m2|err2]];
    cbn [fst snd] in *; try done.
  - injection Hr as <-.
    pose proof (update_pocket_bias m1 _ _ Hs') as Hu.
    destruct (m1 =? 0); cbn [fst snd map ev_misclassifies]; [done|].
    destruct (IH _ _ (append_record_bias _ _ Hu)) as (Hfinal & Hres & Hms).
    split; [done|]. split; [done|]. by rewrite Hms.
  - by injection Hr as <-.
Qed.

Lemma same_but_bias_tails s1 s2 l :
  same_but_bias s1 s2 → drop 1 (deref s1 l) = drop 1 (deref s2 l).
Proof.
  intros (Hself & Hheap & _ & Htail).
  destruct (decide (l = weights (self s1))) as [->|Hl].
  - rewrite Htail. by rewrite Hself.
  - unfold deref. by rewrite Hheap.
Qed.

(** [train] never reads [self.weights[0]].  From two states that differ at
    most in that entry, a call has the same outcome, completes passes with the
    same misclassification counts, and leaves the same record, the same
    count in the pocket, the same array object as the pocket's
    [best_weights] with the same entries from 1 on, and the same
    [weights[1:]].  The entries 0 of the two arrays may differ. *)
Theorem train_ignores_bias s1 s2 samples labels max_iterator :
  same_but_bias s1 s2 →
  let r1 := train samples labels max_iterator s1 in
  let r2 := train samples labels max_iterator s2 in
  r1.2 = r2.2
  ∧ map ev_misclassifies (train_events samples labels max_iterator s1)
    = map ev_misclassifies (train_events samples labels max_iterator s2)
  ∧ pocket (self r1.1) = pocket (self r2.1)
  ∧ misclassify_record (self r1.1) = misclassify_record (self r2.1)
  ∧ drop 1 (deref r1.1 (weights (self r1.1))) = drop 1 (deref r2.1 (weights (self r2.1)))
  ∧ drop 1 (deref r1.1 (best_weights (pocket (self r1.1))))
    = drop 1 (deref r2.1 (best_weights (pocket (self r2.1)))).
Proof.
  intros Hs. cbn zeta.
  assert (same_but_bias (train samples labels max_iterator s1).1
            (train samples labels max_iterator s2).1
          ∧ (train samples labels max_iterator s1).2
            = (train samples labels max_iterator s2).2
          ∧ map ev_misclassifies (train_events samples labels max_iterator s1)
            = map ev_misclassifies (train_events samples labels max_iterator s2))
    as (Hfinal & Hres & Hms).
  { rewrite !train_unfold. unfold train_events.
    destruct Hs as (Hself & Hrest). rewrite Hself.
    destruct (getitems _ labels) as [codes|]; [|done].
    by apply for_range_bias. }
  split; [done|]. split; [done|].
  pose proof Hfinal as (Hself & _ & _ & Htail).
  split; [by f_equal|]. split; [by f_equal|]. split; [done|].
  rewrite <- Hself. by apply same_but_bias_tails.
Qed.

End Bias.

(** ** Passes without misclassification *)

Section Steady.
Context {A : Arith} {I : Inner A} {L : Type} `{Countable L}.
Variables (regular : num → Prop) (same : num → num → Prop).
Hypothesis laws : zero_update_laws regular same.

Local Abbreviation state := (@state A L _ _).
Local Abbreviation pass_event := (@pass_event A L _ _).

Implicit Types (s : state) (e : pass_event) (m : Z).

Lemma same_refl_list (w : list num) : Forall2 same w w.
Proof.
  destruct laws as (Hrefl & _). apply Forall_Forall2_diag, Forall_forall. auto.
Qed.

Lemma same_trans_list (u v w : list num) :
  Forall2 same u v → Forall2 same v w → Forall2 same u w.
Proof.
  destruct laws as (_ & Htrans & _). apply Forall2_trans. intros x y z. apply Htrans.
Qed.

Lemma same_decision (x w w' : list num) :
  Forall2 same w w' → np_where (inner x w) = np_where (inner x w').
Proof.
  destruct laws as (_ & _ & _ & _ & Hdec). intros Hw. unfold np_where.
  by rewrite (Hdec x w w' Hw).
Qed.

(** An update by zero gives the same weights. *)
Lemma zero_update_same (ws sample : list num) :
  Forall regular sample → length sample = length ws →
  Forall2 same (zip_with add ws (map (mul (of_int 0)) sample)) ws.
Proof.
  destruct laws as (_ & _ & Hupd & _). intros Hreg. revert ws.
  induction Hreg as [|x sample Hx _ IH]; intros [|w ws]; cbn [length map zip_with];
    intros Hlen; try done.
  injection Hlen as Hlen. constructor; [by apply Hupd|by apply IH].
Qed.

(** A sample that is classified as its target. *)
Lemma train_sample_zero sample target s s' :
  Forall regular sample →
  train_sample sample target s = (s', Ok 0) →
  Forall2 same (deref s' (weights (self s))) (deref s (weights (self s)))
  ∧ deref s (weights (self s)) ≠ []
  ∧ length sample = length (drop 1 (deref s (weights (self s))))
  ∧ np_where (inner sample (drop 1 (deref s (weights (self s))))) = target.
Proof.
  intros Hreg.
  destruct (deref s (weights (self s))) as [|w0 ws] eqn:Ew.
  - rewrite (train_sample_nil _ _ _ Ew). by destruct (decide _).
  - rewrite (train_sample_cons _ _ _ _ _ Ew). change (drop 1 (w0 :: ws)) with ws.
    destruct (decide (length sample = length ws)) as [Hlen|]; [|done].
    cbn zeta.
    destruct (Z.eqb_spec (target - np_where (inner sample ws)) 0) as [Hu|]; [|done].
    rewrite Hu. intros [= <-]. rewrite deref_insert.
    split; [|split; [done|split; [done|lia]]].
    destruct laws as (_ & _ & _ & Hbias & _).
    constructor; [apply Hbias|by apply zero_update_same].
Qed.

(** A pass without misclassification ends with the same weights, and they
    put every sample on the side of its target. *)
Lemma train_samples_zero pairs m s s' :
  Forall (fun p => Forall regular p.1) pairs →
  train_samples pairs m s = (s', Ok m) →
  Forall2 same (deref s' (weights (self s))) (deref s (weights (self s)))
  ∧ (pairs ≠ [] → deref s (weights (self s)) ≠ [])
  ∧ Forall (fun p =>
       length p.1 = length (drop 1 (deref s' (weights (self s))))
       ∧ np_where (inner p.1 (drop 1 (deref s' (weights (self s))))) = p.2) pairs.
Proof.
  intros Hreg. revert m s.
  induction Hreg as [|[sample target] rest Hx _ IH]; intros m s; cbn [train_samples].
  - unfold ret. intros [= <-]. split; [apply same_refl_list|]. split; [done|constructor].
  - unfold bind.
    pose proof (train_sample_self sample target s) as Hself.
    destruct (train_sample sample target s) as [s1 [r|err]] eqn:Es; [|done].
    cbn [fst] in Hself. intros Hrest.
    pose proof (train_samples_bounds _ _ _ _ _ Hrest) as Hb.
    pose proof (train_sample_result _ _ _ _ _ Es) as Hr.
    assert (r = 0) as -> by lia.
    apply (train_sample_zero _ _ _ _ Hx) in Es as (Hsame1 & Hne & Hlen & Hsign).
    rewrite Z.add_0_r in Hrest. apply IH in Hrest as (Hsame & _ & Hall).
    rewrite Hself in Hsame, Hall.
    pose proof (same_trans_list _ _ _ Hsame Hsame1) as Hfinal.
    split; [done|]. split; [done|]. constructor; [|done]. cbn [fst snd].
    pose proof (Forall2_drop _ _ _ 1 Hfinal) as Htail.
    cbn [fst] in Hlen, Hsign. split.
    + rewrite Hlen. symmetry. by eapply Forall2_length.
    + rewrite <- Hsign. by apply same_decision.
Qed.

(** On weights that put every sample on the side of its target, a pass
    misclassifies nothing and ends with the same weights. *)
Lemma train_samples_again pairs m s (w : list num) :
  Forall (fun p => Forall regular p.1
                   ∧ length p.1 = length (drop 1 w)
                   ∧ np_where (inner p.1 (drop 1 w)) = p.2) pairs →
  (pairs ≠ [] → w ≠ []) →
  Forall2 same (deref s (weights (self s))) w →
  ∃ s', train_samples pairs m s = (s', Ok m)
        ∧ Forall2 same (deref s' (weights (self s))) w.
Proof.
  intros Hall. revert m s.
  induction Hall as [|[sample target] rest (Hreg & Hlen & Hsign) _ IH];
    intros m s Hne Hsame; cbn [train_samples].
  - by exists s.
  - unfold bind. cbn [fst snd] in *.
    destruct w as [|w0 ws]; [by destruct Hne|]. change (drop 1 (w0 :: ws)) with ws in *.
    destruct (deref s (weights (self s))) as [|u0 us] eqn:Eu; [by inversion Hsame|].
    apply Forall2_cons in Hsame as [Hhead Htail].
    rewrite (train_sample_cons _ _ _ _ _ Eu).
    rewrite decide_True by (rewrite Hlen; symmetry; by eapply Forall2_length).
    cbn zeta. rewrite (same_decision sample us ws Htail), Hsign, Z.sub_diag.
    cbn [Z.eqb]. rewrite Z.add_0_r.
    match goal with |- ∃ s', train_samples _ _ ?s1 = _ ∧ _ =>
      apply (IH m s1); [done|] end.
    cbn [self]. unfold deref at 1. cbn [heap]. rewrite lookup_insert_eq.
    cbn [from_option id].
    destruct laws as (_ & Htrans & _ & Hbias & _).
    constructor.
    + eapply Htrans; [apply Hbias|done].
    + eapply same_trans_list; [|done]. apply zero_update_same; [done|].
      rewrite Hlen. symmetry. by eapply Forall2_length.
Qed.

(** The weights after a pass without misclassification that [train]
    completed. *)
Lemma zero_pass_separates n samples codes s e :
  Forall (Forall regular) samples →
  e ∈ train_passes n samples codes s →
  ev_misclassifies e = 0 →
  let s' := ev_compared e in
  (zip samples codes ≠ [] → deref s' (weights (self s')) ≠ [])
  ∧ Forall (fun p =>
       length p.1 = length (drop 1 (deref s' (weights (self s'))))
       ∧ np_where (inner p.1 (drop 1 (deref s' (weights (self s'))))) = p.2)
      (zip samples codes).
Proof.
  intros Hreg Hin Hzero. cbn zeta.
  apply train_passes_event in Hin as (s0 & Hpass & -> & _).
  rewrite Hzero in *.
  pose proof (train_pass_self samples codes s0) as Hself.
  rewrite Hpass in Hself. cbn [fst] in Hself.
  destruct (update_pocket_fields 0 (ev_trained e)) as (-> & _).
  rewrite deref_update_pocket, Hself.
  assert (Forall (fun p : list num * Z => Forall regular p.1) (zip samples codes))
    as Hpairs.
  { apply Forall_forall. intros [sample target] Hp%elem_of_zip_l.
    rewrite Forall_forall in Hreg. by apply Hreg. }
  apply (train_samples_zero _ _ _ _ Hpairs) in Hpass as (Hsame & Hne & Hall).
  split; [|done]. intros Hzip Hnil. rewrite Hnil in Hsame.
  apply Forall2_nil_inv_l in Hsame. by apply Hne.
Qed.

(** The comparison after a pass without misclassification always assigns
    the pocket. *)
Lemma update_pocket_zero s :
  (update_pocket 0 s).1 =
    mkState (heap s)
      (mkPocketClassifier (mkPocket (weights (self s)) 0) (weights (self s))
         (misclassify_record (self s)) (_label_map (self s))
         (_reversed_label_map (self s))).
Proof. unfold update_pocket. unfold_monad. cbn beta iota. by rewrite orb_true_r. Qed.

(** From the laws above alone: once a call of [train] has ended on a pass
    without misclassification, a further call on the same samples and labels
    returns after one pass without misclassification.  It leaves every field
    of the classifier and of its pocket as it was, writes to no array but
    the weights, and leaves the same weights. *)
Lemma retrain_after_zero_pass s samples labels max_iterator max_iterator' e :
  Forall (Forall regular) samples →
  e ∈ train_events samples labels max_iterator s →
  ev_misclassifies e = 0 →
  1 ≤ max_iterator' →
  let s' := (train samples labels max_iterator s).1 in
  let r := train samples labels max_iterator' s' in
  r.2 = Ok tt
  ∧ map ev_misclassifies (train_events samples labels max_iterator' s') = [0]
  ∧ self r.1 = self s'
  ∧ (∀ l, l ≠ weights (self s') → heap r.1 !! l = heap s' !! l)
  ∧ Forall2 same (deref r.1 (weights (self s'))) (deref s' (weights (self s'))).
Proof.
  intros Hreg Hin Hzero Hmax. cbn zeta.
  destruct (train_fields samples labels max_iterator s) as (_ & _ & Hrev).
  rewrite (train_unfold samples labels max_iterator' _). unfold train_events.
  rewrite Hrev. rewrite train_unfold. unfold train_events in Hin.
  destruct (getitems _ labels) as [codes|]; [|by apply elem_of_nil in Hin].
  pose proof Hin as [k Hk]%list_elem_of_lookup.
  pose proof (train_passes_zero_last _ _ _ _ _ _ Hk Hzero) as Hlen.
  assert (last (train_passes (Z.to_nat max_iterator) samples codes s) = Some e) as Hlast
    by (by rewrite last_lookup, Hlen).
  rewrite (for_range_stops _ _ _ _ _ Hlast Hzero). cbn [fst].
  destruct (zero_pass_separates _ _ _ _ _ Hreg Hin Hzero) as [Hne Hall].
  apply train_passes_event in Hin as (s0 & _ & Hcmp & _).
  rewrite Hzero in Hcmp. rewrite Hcmp in *. clear Hcmp.
  set (sf := (update_pocket 0 (ev_trained e)).1) in *.
  assert (Forall (fun p : list num * Z =>
            Forall regular p.1
            ∧ length p.1 = length (drop 1 (deref sf (weights (self sf))))
            ∧ np_where (inner p.1 (drop 1 (deref sf (weights (self sf))))) = p.2)
            (zip samples codes)) as Hpairs.
  { apply Forall_forall. intros [sample target] Hp.
    rewrite Forall_forall in Hall. split; [|by apply (Hall _ Hp)].
    apply elem_of_zip_l in Hp. rewrite Forall_forall in Hreg. by apply Hreg. }
  destruct (train_samples_again _ 0 sf _ Hpairs Hne (same_refl_list _))
    as (s2 & Hpass & Hsame).
  pose proof (train_samples_self (zip samples codes) 0 sf) as Hself.
  pose proof (train_samples_heap (zip samples codes) 0 sf) as Hheap.
  rewrite Hpass in Hself, Hheap. cbn [fst] in Hself, Hheap.
  destruct (Z.to_nat max_iterator') as [|n] eqn:En; [lia|].
  rewrite for_range_step. cbn [train_passes]. unfold train_pass. rewrite Hpass.
  cbn [Z.eqb fst snd map ev_misclassifies].
  split; [done|]. split; [done|].
  rewrite deref_update_pocket, update_pocket_heap.
  split; [|by split].
  rewrite update_pocket_zero. cbn [self]. rewrite Hself.
  unfold sf. by rewrite update_pocket_zero.
Qed.

(** *** A further call *)

Hypothesis absorbed : zero_updates_absorbed regular.

(** A sample that is classified as its target leaves the weights updated by
    zero. *)
Lemma train_sample_zero_update sample target s s' :
  train_sample sample target s = (s', Ok 0) →
  deref s' (weights (self s)) = zero_update sample (deref s (weights (self s))).
Proof.
  destruct (deref s (weights (self s))) as [|w0 ws] eqn:Ew.
  - rewrite (train_sample_nil _ _ _ Ew). by destruct (decide _).
  - rewrite (train_sample_cons _ _ _ _ _ Ew).
    destruct (decide (length sample = length ws)) as [Hlen|]; [|done].
    cbn zeta.
    destruct (Z.eqb_spec (target - np_where (inner sample ws)) 0) as [Hu|]; [|done].
    rewrite Hu. intros [= <-]. by rewrite deref_insert.
Qed.

Lemma train_samples_zero_update pairs m s s' :
  train_samples pairs m s = (s', Ok m) →
  deref s' (weights (self s))
  = fold_left (fun w p => zero_update p.1 w) pairs (deref s (weights (self s))).
Proof.
  revert m s. induction pairs as [|[sample target] rest IH]; intros m s;
    cbn [train_samples fold_left].
  - unfold ret. by intros [= <-].
  - unfold bind.
    pose proof (train_sample_self sample target s) as Hself.
    destruct (train_sample sample target s) as [s1 [r|err]] eqn:Es; [|done].
    cbn [fst] in Hself. intros Hrest.
    pose proof (train_samples_bounds _ _ _ _ _ Hrest) as Hb.
    pose proof (train_sample_result _ _ _ _ _ Es) as Hr.
    assert (r = 0) as -> by lia.
    rewrite Z.add_0_r in Hrest. apply IH in Hrest. rewrite Hself in Hrest.
    by rewrite Hrest, (train_sample_zero_update _ _ _ _ Es).
Qed.

Lemma zero_update_again (x w : list num) :
  Forall regular x → zero_update x (zero_update x w) = zero_update x w.
Proof.
  destruct absorbed as [Hagain _]. intros Hx.
  destruct w as [|w0 ws]; [done|]. cbn [zero_update]. f_equal; [apply Hagain; by left|].
  revert ws. induction Hx as [|a x Ha _ IH]; intros [|w ws]; cbn [map zip_with]; try done.
  f_equal; [|apply IH]. apply Hagain. right. by exists a.
Qed.

Lemma zero_update_swap (x y w : list num) :
  Forall regular x → Forall regular y →
  zero_update x (zero_update y w) = zero_update y (zero_update x w).
Proof.
  destruct absorbed as [_ Hswap]. intros Hx Hy.
  destruct w as [|w0 ws]; [done|]. cbn [zero_update]. f_equal.
  revert y Hy ws. induction Hx as [|a x Ha _ IH]; intros y Hy ws.
  - cbn [map]. by rewrite !zip_with_nil_r.
  - destruct Hy as [|b y Hb Hy]; [cbn [map]; by rewrite !zip_with_nil_r|].
    destruct ws as [|w ws]; [done|]. cbn [map zip_with]. f_equal; [|by apply IH].
    apply Hswap; right; [by exists b|by exists a].
Qed.

(** After a pass without misclassification the update by zero for any of its
    samples changes nothing. *)
Lemma zero_updates_fold pairs (p : list num * Z) (w : list num) :
  Forall (fun p => Forall regular p.1) pairs →
  p ∈ pairs →
  zero_update p.1 (fold_left (fun w p => zero_update p.1 w) pairs w)
  = fold_left (fun w p => zero_update p.1 w) pairs w.
Proof.
  induction pairs as [|q pairs IH] using rev_ind; [by intros _ ?%elem_of_nil|].
  intros [Hpairs Hq%Forall_inv]%Forall_app. rewrite fold_left_app.
  cbn [fold_left]. intros [Hin| ->%list_elem_of_singleton]%elem_of_app.
  - rewrite zero_update_swap; [by rewrite IH|by eapply Forall_forall in Hpairs|done].
  - by apply zero_update_again.
Qed.

(** On weights that no update by zero changes and that put every sample on
    the side of its target, a pass changes nothing. *)
Lemma train_sample_absorbed sample target s (w : list num) :
  deref s (weights (self s)) = w → w ≠ [] →
  length sample = length (drop 1 w) →
  np_where (inner sample (drop 1 w)) = target →
  zero_update sample w = w →
  train_sample sample target s = (s, Ok 0).
Proof.
  intros Hw Hne Hlen Hsign Hupd. destruct w as [|w0 ws]; [done|].
  change (drop 1 (w0 :: ws)) with ws in *.
  rewrite (train_sample_cons _ _ _ _ _ Hw), decide_True by done.
  cbn zeta. rewrite Hsign, Z.sub_diag. cbn [Z.eqb]. cbn [zero_update] in Hupd.
  rewrite Hupd, insert_insert_eq, insert_id; [by destruct s|].
  unfold deref in Hw. by destruct (heap s !! weights (self s)) as [v|]; simplify_eq/=.
Qed.

Lemma train_samples_absorbed pairs m s (w : list num) :
  deref s (weights (self s)) = w →
  (pairs ≠ [] → w ≠ []) →
  Forall (fun p => length p.1 = length (drop 1 w)
                   ∧ np_where (inner p.1 (drop 1 w)) = p.2
                   ∧ zero_update p.1 w = w) pairs →
  train_samples pairs m s = (s, Ok m).
Proof.
  intros Hw Hne Hall. revert m.
  induction Hall as [|[sample target] rest (Hlen & Hsign & Hupd) _ IH]; intros m;
    cbn [train_samples]; [done|].
  unfold bind. cbn [fst snd] in *.
  rewrite (train_sample_absorbed sample target s w) by auto.
  rewrite Z.add_0_r. apply IH. intros _. by apply Hne.
Qed.

(** Once a call of [train] has ended on a pass without misclassification, a
    further call on the same samples and labels, with any
    [max_iterator >= 1], runs that one pass again and changes nothing: not
    the weights, not the pocket, not the record.  The attributes are
    [regular]: in binary64, finite. *)
Theorem retrain_changes_nothing s samples labels max_iterator max_iterator' e :
  Forall (Forall regular) samples →
  e ∈ train_events samples labels max_iterator s →
  ev_misclassifies e = 0 →
  1 ≤ max_iterator' →
  let s' := (train samples labels max_iterator s).1 in
  train samples labels max_iterator' s' = (s', Ok tt)
  ∧ map ev_misclassifies (train_events samples labels max_iterator' s') = [0].
Proof.
  intros Hreg Hin Hzero Hmax. cbn zeta.
  destruct (train_fields samples labels max_iterator s) as (_ & _ & Hrev).
  rewrite (train_unfold samples labels max_iterator' _). unfold train_events.
  rewrite Hrev. rewrite train_unfold. unfold train_events in Hin.
  destruct (getitems _ labels) as [codes|]; [|by apply elem_of_nil in Hin].
  pose proof Hin as [k Hk]%list_elem_of_lookup.
  pose proof (train_passes_zero_last _ _ _ _ _ _ Hk Hzero) as Hlen.
  assert (last (train_passes (Z.to_nat max_iterator) samples codes s) = Some e) as Hlast
    by (by rewrite last_lookup, Hlen).
  rewrite (for_range_stops _ _ _ _ _ Hlast Hzero). cbn [fst].
  destruct (zero_pass_separates _ _ _ _ _ Hreg Hin Hzero) as [Hne Hall].
  apply train_passes_event in Hin as (s0 & Hpass0 & Hcmp & _).
  rewrite Hzero in Hcmp, Hpass0. rewrite Hcmp in *. clear Hcmp.
  assert (Forall (fun p : list num * Z => Forall regular p.1) (zip samples codes))
    as Hpairs.
  { apply Forall_forall. intros [sample target] Hp%elem_of_zip_l.
    rewrite Forall_forall in Hreg. by apply Hreg. }
  pose proof (train_pass_self samples codes s0) as Hself0.
  rewrite Hpass0 in Hself0. cbn [fst] in Hself0.
  apply train_samples_zero_update in Hpass0 as Hfold. rewrite <- Hself0 in Hfold.
  set (sf := (update_pocket 0 (ev_trained e)).1) in *.
  assert (weights (self sf) = weights (self (ev_trained e))) as Hwsf
    by apply update_pocket_fields.
  assert (deref sf (weights (self sf)) = deref (ev_trained e) (weights (self (ev_trained e))))
    as Hdsf by (rewrite Hwsf; apply deref_update_pocket).
  assert (train_samples (zip samples codes) 0 sf = (sf, Ok 0)) as Hagain.
  { apply (train_samples_absorbed _ _ _ _ eq_refl Hne).
    apply Forall_forall. intros p Hp. rewrite Forall_forall in Hall.
    destruct (Hall p Hp) as [Hl Hs]. split; [done|]. split; [done|].
    rewrite Hdsf, Hfold. by apply zero_updates_fold. }
  destruct (Z.to_nat max_iterator') as [|n] eqn:En; [lia|].
  rewrite for_range_step. cbn [train_passes]. unfold train_pass. rewrite Hagain.
  cbn [Z.eqb fst snd map ev_misclassifies].
  assert ((update_pocket 0 sf).1 = sf) as ->; [|done].
  rewrite update_pocket_zero. unfold sf. by rewrite update_pocket_zero.
Qed.

End Steady.

Section ZeroPass.
Context {A : Arith} {I : Inner A} {L : Type} `{Countable L}.

Local Abbreviation state := (@state A L _ _).
Local Abbreviation pass_event := (@pass_event A L _ _).

Implicit Types (s : state) (e : pass_event).

(** C5, as amended.  When a call of [train] completes a pass without
    misclassification, whatever the bound on the passes and whatever the
    arithmetic, that pass is the last one, [train] returns normally and the
    pocket's count is 0.  If moreover an update by zero leaves the same
    weights ([zero_update_laws]: so it is in binary64 for attributes that are
    finite, up to the sign of a zero that the test [>= 0.0] on the inner
    product cannot see), then the weights put every training sample on the
    side of its label's code under the rule the training loop uses: the code
    is +1 exactly when [np.inner(sample, weights[1:]) >= 0.0]. *)
Theorem zero_pass_ends_training s samples labels max_iterator e :
  e ∈ train_events samples labels max_iterator s →
  ev_misclassifies e = 0 →
  let s' := (train samples labels max_iterator s).1 in
  train samples labels max_iterator s = (s', Ok tt)
  ∧ last (train_events samples labels max_iterator s) = Some e
  ∧ s' = ev_compared e
  ∧ misclassify_count (pocket (self s')) = 0
  ∧ ∀ regular same,
      zero_update_laws regular same →
      Forall (Forall regular) samples →
      ∃ codes, getitems (_reversed_label_map (self s)) labels = Ok codes
        ∧ Forall (fun p =>
             length p.1 = length (drop 1 (deref s' (weights (self s'))))
             ∧ np_where (inner p.1 (drop 1 (deref s' (weights (self s'))))) = p.2)
            (zip samples codes).
Proof.
  intros Hin Hzero. cbn zeta.
  rewrite train_unfold. unfold train_events in *.
  destruct (getitems _ labels) as [codes|]; [|by apply elem_of_nil in Hin].
  pose proof Hin as [k Hk]%list_elem_of_lookup.
  pose proof (train_passes_zero_last _ _ _ _ _ _ Hk Hzero) as Hlen.
  assert (last (train_passes (Z.to_nat max_iterator) samples codes s) = Some e) as Hlast
    by (by rewrite last_lookup, Hlen).
  rewrite (for_range_stops _ _ _ _ _ Hlast Hzero). cbn [fst].
  split; [done|]. split; [done|]. split; [done|]. split.
  - pose proof Hin as (s0 & _ & -> & _)%train_passes_event.
    rewrite Hzero, update_pocket_pocket. cbn [Z.eqb]. by rewrite !orb_true_r.
  - intros regular same laws Hreg. exists codes. split; [done|].
    by destruct (zero_pass_separates regular same laws _ _ _ _ _ Hreg Hin Hzero).
Qed.

End ZeroPass.

(** In binary64, with the products summed from the left and attributes that
    are finite, the weights after a pass without misclassification separate
    the training samples. *)
Lemma zero_pass_separates_binary64 {L : Type} `{Countable L}
    (s : @state binary64 L _ _) (samples : list (list float)) (labels : list L)
    max_iterator e :
  Forall (Forall finite) samples →
  e ∈ train_events (A := binary64) samples labels max_iterator s →
  ev_misclassifies e = 0 →
  let s' := ev_compared e in
  ∃ codes, getitems (_reversed_label_map (self s)) labels = Ok codes
    ∧ Forall (fun p : list float * Z =>
         length p.1 = length (drop 1 (deref s' (weights (self s'))))
         ∧ np_where (A := binary64)
             (dot (A := binary64) p.1 (drop 1 (deref s' (weights (self s'))))) = p.2)
        (zip samples codes).
Proof.
  intros Hreg Hin Hzero. cbn zeta. unfold train_events in Hin.
  destruct (getitems _ labels) as [codes|]; [|by apply elem_of_nil in Hin].
  exists codes. split; [done|].
  by destruct (zero_pass_separates (I := sequential binary64) finite same_value
                 binary64_zero_update_laws _ _ _ _ _ Hreg Hin Hzero).
Qed.

(** An infinite attribute is another matter: the second pass over the one
    sample [[inf]] misclassifies nothing, and its update by zero turns the
    weight into NaN, which puts the sample on the other side. *)
Lemma infinite_attribute_not_separated :
  let s := Samples.classifier 1 in
  let samples := [[infinity]]%float in
  let r := train (A := binary64) samples [-1] 10 s in
  r.2 = Ok tt
  ∧ map ev_misclassifies (train_events (A := binary64) samples [-1] 10 s) = [1; 0]
  ∧ getitems (_reversed_label_map (self s)) [-1] = Ok [1]
  ∧ np_where (A := binary64)
      (dot (A := binary64) [infinity]%float (drop 1 (deref r.1 (weights (self r.1)))))
    = -1.
Proof. vm_compute. done. Qed.

(** ** Instances of the results above *)

Lemma corner_finite : Forall (Forall finite) Samples.corner.
Proof. repeat constructor. Qed.

Lemma zero_pass_ends_training_witness :
  let s := Samples.classifier 3 in
  let s' := (train (A := binary64) Samples.corner Samples.corner_labels 10 s).1 in
  train (A := binary64) Samples.corner Samples.corner_labels 10 s = (s', Ok tt)
  ∧ last (train_events (A := binary64) Samples.corner Samples.corner_labels 10 s)
      = Some Samples.corner_final
  ∧ s' = ev_compared Samples.corner_final
  ∧ misclassify_count (pocket (self s')) = 0
  ∧ ∃ codes, getitems (_reversed_label_map (self s)) Samples.corner_labels = Ok codes
      ∧ Forall (fun p : list float * Z =>
           length p.1 = length (drop 1 (deref s' (weights (self s'))))
           ∧ np_where (A := binary64)
               (dot (A := binary64) p.1 (drop 1 (deref s' (weights (self s'))))) = p.2)
          (zip Samples.corner codes).
Proof.
  destruct (zero_pass_ends_training (A := binary64) (I := sequential binary64)
              (Samples.classifier 3) Samples.corner Samples.corner_labels 10
              Samples.corner_final) as (Hret & Hlast & Hfinal & Hcount & Hsep).
  - apply list_elem_of_lookup. exists 1%nat. vm_compute. reflexivity.
  - vm_compute. reflexivity.
  - split; [exact Hret|]. split; [exact Hlast|]. split; [exact Hfinal|].
    split; [exact Hcount|].
    exact (Hsep finite same_value binary64_zero_update_laws corner_finite).
Defined.

Lemma retrain_changes_nothing_witness :
  let s' := (train (A := binary64) Samples.corner Samples.corner_labels 10
               (Samples.classifier 3)).1 in
  train (A := binary64) Samples.corner Samples.corner_labels 3 s' = (s', Ok tt)
  ∧ map ev_misclassifies
      (train_events (A := binary64) Samples.corner Samples.corner_labels 3 s') = [0].
Proof.
  apply (retrain_changes_nothing (A := binary64) (I := sequential binary64)
           finite same_value binary64_zero_update_laws binary64_zero_updates_absorbed
           (Samples.classifier 3) Samples.corner Samples.corner_labels 10 3
           Samples.corner_final).
  - exact corner_finite.
  - apply list_elem_of_lookup. exists 1%nat. vm_compute. reflexivity.
  - vm_compute. reflexivity.
  - lia.
Defined.

(** The classifier of the docstring after [classifier.weights[0] = 5.0]. *)
Definition biased_classifier : @state binary64 Z _ _ :=
  (store (A := binary64) (weights (self Docstring.classifier)) [5; 0; 0; 0; 0]%float
     Docstring.classifier).1.

Lemma train_returns_witness :
  (train (A := binary64) Docstring.samples Docstring.labels 10 Docstring.classifier).2
  = Ok tt.
Proof.
  apply (train_returns (A := binary64) Docstring.classifier Docstring.samples
           Docstring.labels 10 (-1, 1) 4).
  - reflexivity.
  - unfold Docstring.labels. repeat (constructor; [cbn; auto|]). constructor.
  - reflexivity.
  - repeat constructor.
Defined.

Lemma train_rejects_sample_witness :
  (train (A := binary64) [[1; 2; 3; 4]; [1; 2]]%float [-1; 1] 10
     Docstring.classifier).2 = Raise ValueError
  ∧ train_events (A := binary64) [[1; 2; 3; 4]; [1; 2]]%float [-1; 1] 10
      Docstring.classifier = []
  ∧ self (train (A := binary64) [[1; 2; 3; 4]; [1; 2]]%float [-1; 1] 10
            Docstring.classifier).1
    = self Docstring.classifier.
Proof.
  apply (train_rejects_sample (A := binary64) Docstring.classifier
           [[1; 2; 3; 4]; [1; 2]]%float [-1; 1] 10 (-1, 1) 4).
  - reflexivity.
  - repeat (constructor; [cbn; auto|]). constructor.
  - reflexivity.
  - apply Exists_cons_tl, Exists_cons_hd. cbn. lia.
  - lia.
Defined.

Lemma pass_count_bounds_witness :
  0 ≤ ev_misclassifies Samples.corner_last
    ≤ Z.of_nat (length Samples.corner_exact `min` length Samples.corner_labels).
Proof.
  apply (pass_count_bounds (A := rational) (Samples.classifier_exact 3)
           Samples.corner_exact Samples.corner_labels 10 Samples.corner_last).
  apply list_elem_of_lookup. exists 1%nat. vm_compute. reflexivity.
Defined.

Lemma classify_rejects_shape_witness :
  classify (A := binary64) [[1; 2]]%float Docstring.classifier
  = (Docstring.classifier, Raise ValueError).
Proof.
  apply (classify_rejects_shape (A := binary64) Docstring.classifier [[1; 2]]%float
           0%float [0; 0; 0; 0]%float).
  - reflexivity.
  - right. apply Exists_cons_hd. cbn. lia.
Defined.

Lemma classify_returns_class_labels_witness :
  Docstring.classifier = Docstring.classifier
  ∧ Docstring.new_data ≠ []
  ∧ length [-1; -1] = length Docstring.new_data
  ∧ Forall (fun l : Z => l = (-1, 1).1 ∨ l = (-1, 1).2) [-1; -1].
Proof.
  apply (classify_returns_class_labels (A := binary64) Docstring.classifier
           Docstring.new_data (-1, 1) Docstring.classifier [-1; -1]).
  - reflexivity.
  - vm_compute. reflexivity.
Defined.

Lemma train_ignores_bias_witness :
  let r1 := train (A := binary64) Docstring.samples Docstring.labels 10
              Docstring.classifier in
  let r2 := train (A := binary64) Docstring.samples Docstring.labels 10
              biased_classifier in
  r1.2 = r2.2
  ∧ map ev_misclassifies
      (train_events (A := binary64) Docstring.samples Docstring.labels 10
         Docstring.classifier)
    = map ev_misclassifies
        (train_events (A := binary64) Docstring.samples Docstring.labels 10
           biased_classifier)
  ∧ pocket (self r1.1) = pocket (self r2.1)
  ∧ misclassify_record (self r1.1) = misclassify_record (self r2.1)
  ∧ drop 1 (deref r1.1 (weights (self r1.1))) = drop 1 (deref r2.1 (weights (self r2.1)))
  ∧ drop 1 (deref r1.1 (best_weights (pocket (self r1.1))))
    = drop 1 (deref r2.1 (best_weights (pocket (self r2.1)))).
Proof.
  apply (train_ignores_bias (A := binary64) Docstring.classifier biased_classifier
           Docstring.samples Docstring.labels 10).
  split; [reflexivity|]. split; [|split; reflexivity].
  intros l Hl. unfold biased_classifier, store. cbn [fst heap].
  by rewrite lookup_insert_ne.
Defined.

(** A call that raises on a sample with two attributes, then the call of the
    docstring. *)
Definition docstring_calls : list (@call binary64 Z) :=
  [mkCall (A := binary64) [[1; 2]]%float [-1] 3;
   mkCall (A := binary64) Docstring.samples Docstring.labels 10].

Lemma classifier_stays_usable_witness :
  let s := session (A := binary64) docstring_calls (init 4 (-1, 1)) in
  length (deref s (weights (self s))) = 5%nat
  ∧ _label_map (self s) = label_map_of (-1, 1)
  ∧ _reversed_label_map (self s) = reversed_label_map_of (-1, 1)
  ∧ (∃ predicted, classify (A := binary64) Docstring.new_data s = (s, Ok predicted)
                  ∧ length predicted = length Docstring.new_data)
  ∧ (train (A := binary64) Docstring.samples Docstring.labels 10 s).2 = Ok tt.
Proof.
  apply (classifier_stays_usable (A := binary64) 4 (-1, 1) docstring_calls
           Docstring.new_data Docstring.samples Docstring.labels 10).
  - discriminate.
  - repeat constructor.
  - repeat constructor.
  - unfold Docstring.labels. repeat (constructor; [cbn; auto|]). constructor.
Defined.
